(** * llama_jni.cpp: the JNI bridge of the on-device generation engine

    A shallow embedding of [app/src/main/cpp/llama_jni.cpp]: the global
    session state, the batch buffer and its two helpers, session start
    and teardown, and the generation loop of [nativeGenerate].

    The inference engine (llama.cpp) is an interface, [InferenceEngine]:
    every call the bridge makes to it is a field of the class, threading
    the engine's own memory [W].  What the bridge does on its side of the
    interface (the batch arrays, the text accumulator, the 256-byte piece
    buffer, the C strings handed to JNI) is modelled concretely. *)

From Stdlib Require Import ZArith List Lia Sorted.
From Stdlib.Strings Require Import Byte.
From stdpp Require Import base tactics option list numbers.

Open Scope Z_scope.

(** ** Scalars and handles *)

Definition llama_token := Z.
Definition llama_pos := Z.
Definition llama_seq_id := Z.

(** A native pointer as the bridge sees it: the integer carried in a
    [jlong]; [0] is [nullptr]. *)
Definition ptr := Z.

(** A [jfloat], as its IEEE-754 binary32 bit pattern.  The bridge never
    computes with floats, it only passes them on. *)
Definition jfloat := Z.

#[global] Instance byte_eq_dec : EqDecision byte := Byte.byte_eq_dec.

(** ** Configuration constants *)

Definition DEFAULT_N_CTX : Z := 2048.
Definition DEFAULT_N_THREADS : Z := 4.
Definition DEFAULT_N_BATCH : Z := 512.
(** [0.7f] *)
Definition DEFAULT_TEMPERATURE : jfloat := 0x3F333333.

(** [0.95f], the literal assigned to [sparams.top_p]. *)
Definition TOP_P_095 : jfloat := 0x3F733333.

(** ** The batch buffer

    [llama_batch] is a struct of arrays with a fill count.  The arrays
    are lists whose length is the allocated capacity; a null array is
    the empty list.  (The [embd] array is null throughout: the bridge
    allocates with [embd = 0].) *)

Record llama_batch := mk_batch {
  n_tokens : Z;
  token : list llama_token;
  pos : list llama_pos;
  n_seq_id : list Z;
  seq_id : list (list llama_seq_id);
  logits : list bool
}.

(** [g_batch = {}]: value-initialised, every pointer null. *)
Definition batch_zero : llama_batch :=
  mk_batch 0 [] [] [] [] [].

(** Modelled from the spec: [llama_batch_init] is declared in llama.h,
    which is not part of the sources; the spec's Batch Buffer is a
    fixed-capacity staging structure created empty at session start.
    The arrays come from [malloc], so their initial content is
    indeterminate; zeros stand for it, and nothing below reads a slot
    at or beyond [n_tokens] before writing it. *)
Definition llama_batch_init (n_alloc embd n_seq_max : Z) : llama_batch :=
  let n := Z.to_nat n_alloc in
  mk_batch 0 (replicate n 0) (replicate n 0) (replicate n 0)
           (replicate n (replicate (Z.to_nat n_seq_max) 0))
           (replicate n false).

(** Modelled from the spec: [common_batch_clear] is declared in
    common.h, which is not part of the sources; "clear the Batch
    Buffer" resets the fill count and leaves the arrays alone. *)
Definition common_batch_clear (b : llama_batch) : llama_batch :=
  mk_batch 0 (token b) (pos b) (n_seq_id b) (seq_id b) (logits b).

(** Modelled from the spec: [common_batch_add] is declared in common.h,
    which is not part of the sources; it stores one (token, position,
    sequence ids, emit-logits) tuple in slot [n_tokens] and bumps the
    count.  The helper asserts that slot [n_tokens] exists (the
    [seq_id] array ends in a null sentinel); [None] is that failed
    assertion, which aborts the process. *)
Definition common_batch_add (b : llama_batch) (id : llama_token)
    (p : llama_pos) (seq_ids : list llama_seq_id) (lg : bool)
    : option llama_batch :=
  let i := Z.to_nat (n_tokens b) in
  match decide (0 <= n_tokens b), seq_id b !! i with
  | left _, Some row =>
      Some (mk_batch (n_tokens b + 1)
                     (<[i := id]> (token b))
                     (<[i := p]> (pos b))
                     (<[i := Z.of_nat (length seq_ids)]> (n_seq_id b))
                     (<[i := seq_ids ++ drop (length seq_ids) row]> (seq_id b))
                     (<[i := lg]> (logits b)))
  | _, _ => None
  end.

(** [g_batch.logits[i] = v]: a store into the [logits] array.  The
    array has no slot outside [0, capacity): [None] is the store
    through an out-of-range index. *)
Definition store_logits (b : llama_batch) (i : Z) (v : bool)
    : option llama_batch :=
  if decide (0 <= i < Z.of_nat (length (logits b))) then
    Some (mk_batch (n_tokens b) (token b) (pos b) (n_seq_id b) (seq_id b)
                   (<[Z.to_nat i := v]> (logits b)))
  else None.

(** One pending tuple of the batch, as the engine reads it. *)
Record entry := mk_entry {
  e_token : llama_token;
  e_pos : llama_pos;
  e_seq : list llama_seq_id;
  e_logits : bool
}.

#[global] Instance entry_eq_dec : EqDecision entry.
Proof. solve_decision. Defined.

Definition batch_slot (b : llama_batch) (i : nat) : entry :=
  mk_entry (token b !!! i) (pos b !!! i)
           (take (Z.to_nat (n_seq_id b !!! i)) (seq_id b !!! i))
           (logits b !!! i).

(** The content of the batch: slots [0 .. n_tokens - 1]. *)
Definition batch_entries (b : llama_batch) : list entry :=
  batch_slot b <$> seq 0 (Z.to_nat (n_tokens b)).

(** [e] with its emit-logits flag set. *)
Definition emit_logits (e : entry) : entry :=
  mk_entry (e_token e) (e_pos e) (e_seq e) true.

(** A batch content of one token, in sequence 0, with emit-logits set,
    at position 0. *)
Definition one_token_at_zero (es : list entry) : Prop :=
  exists tok, es = [mk_entry tok 0 [0] true].

(** Every array has the same capacity. *)
Definition batch_wf (cap : nat) (b : llama_batch) : Prop :=
  length (token b) = cap /\ length (pos b) = cap /\
  length (n_seq_id b) = cap /\ length (seq_id b) = cap /\
  length (logits b) = cap.

(** ** C strings *)

(** The bytes of a NUL-terminated string: everything before the first
    [x00].  This is what [NewStringUTF] reads from a [const char *]. *)
Fixpoint c_str (l : list byte) : list byte :=
  match l with
  | [] => []
  | c :: l' => if Byte.eqb c x00 then [] else c :: c_str l'
  end.

(** [char buf[size] = {0}] after a callee wrote [written] at its
    start. *)
Definition fill_buffer (size : nat) (written : list byte) : list byte :=
  take size (written ++ replicate size x00).

(** ** The inference engine

    The collaborator behind llama.h, common.h and sampling.h.  [W] is the
    engine's memory (contexts with their key/value caches and logits,
    samplers with their history and random state); a call that touches
    it takes and returns a [W].  The vocabulary queries depend on the
    model handle alone: a loaded model is immutable. *)

Record llama_context_params := mk_context_params {
  n_ctx : Z;
  n_batch : Z;
  n_ubatch : Z;
  n_threads : Z;
  n_threads_batch : Z
}.

Record common_params_sampling := mk_params_sampling {
  temp : jfloat;
  top_p : jfloat;
  top_k : Z
}.

Class InferenceEngine (W : Type) := {
  llama_init_from_model : ptr -> llama_context_params -> W -> ptr * W;
  llama_free : ptr -> W -> W;
  (** [llama_decode ctx batch]: the return code and the new memory. *)
  llama_decode : ptr -> llama_batch -> W -> Z * W;
  llama_batch_free : llama_batch -> W -> W;
  (** [llama_token_to_piece model token length]: the return value and
      the bytes stored at the start of the caller's buffer. *)
  llama_token_to_piece : ptr -> llama_token -> Z -> Z * list byte;
  llama_token_eos : ptr -> llama_token;
  (** [common_tokenize model text add_special]. *)
  common_tokenize : ptr -> list byte -> bool -> list llama_token;
  common_sampler_init : ptr -> common_params_sampling -> W -> ptr * W;
  common_sampler_reset : ptr -> W -> W;
  (** [common_sampler_sample sampler ctx idx]. *)
  common_sampler_sample : ptr -> ptr -> Z -> W -> llama_token * W;
  (** [common_sampler_accept sampler token accept_grammar]. *)
  common_sampler_accept : ptr -> llama_token -> bool -> W -> W;
  common_sampler_free : ptr -> W -> W;
  (** The contract of [llama_token_to_piece]: a positive return value
      is the number of bytes stored, and it does not exceed the length
      the caller passed. *)
  llama_token_to_piece_fits : forall model tok len,
    0 < (llama_token_to_piece model tok len).1 ->
    (llama_token_to_piece model tok len).1 <= len /\
    Z.of_nat (length (llama_token_to_piece model tok len).2)
      = (llama_token_to_piece model tok len).1
}.

(** ** Global state and observable events *)

Record state (W : Type) := mk_state {
  g_model : ptr;
  g_context : ptr;
  g_batch : llama_batch;
  g_sampler : ptr;
  g_grammar : list byte;
  world : W
}.
Arguments mk_state {W} _ _ _ _ _ _.
Arguments g_model {W} _.
Arguments g_context {W} _.
Arguments g_batch {W} _.
Arguments g_sampler {W} _.
Arguments g_grammar {W} _.
Arguments world {W} _.

(** What a native call does that its caller or the engine can see, in
    program order.  [EvSample] and [EvOnToken] carry the value of
    [n_generated] at the call. *)
Inductive event :=
| EvDecode (ctx : ptr) (b : llama_batch) (rc : Z)
| EvSample (step : Z) (idx : Z) (tok : llama_token)
| EvOnToken (step : Z) (frag : list byte)
| EvContextFree (ctx : ptr)
| EvSamplerFree (smpl : ptr)
| EvBatchFree.

(** Ways a native call fails to return: the assertion of
    [common_batch_add] aborts the process; a store outside the logits
    array is undefined behaviour, and the model follows it no
    further. *)
Inductive fault :=
| BatchOverflow
| OutOfBounds.

Inductive outcome (A : Type) :=
| Returned (a : A)
| Crashed (f : fault)
| OutOfFuel.
Arguments Returned {A} _.
Arguments Crashed {A} _.
Arguments OutOfFuel {A}.

(** The Java callback object, as far as the bridge looks at it: does
    its class have a method [onToken(String)] for [GetMethodID] to
    find.  (When it has none the bridge logs an error and goes on
    without calling back; the Java exception [GetMethodID] leaves
    pending is outside this model.) *)
Record jcallback := mk_callback { has_onToken : bool }.

(** The tokens sampled, the fragments delivered to the sink and the
    steps at which they were delivered, the batches evaluated. *)
Definition sampled (tr : list event) : list llama_token :=
  omap (fun e => match e with EvSample _ _ t => Some t | _ => None end) tr.
Definition delivered (tr : list event) : list (list byte) :=
  omap (fun e => match e with EvOnToken _ f => Some f | _ => None end) tr.
Definition delivery_steps (tr : list event) : list Z :=
  omap (fun e => match e with EvOnToken k _ => Some k | _ => None end) tr.
Definition decode_codes (tr : list event) : list Z :=
  omap (fun e => match e with EvDecode _ _ rc => Some rc | _ => None end) tr.
Definition decode_batches (tr : list event) : list llama_batch :=
  omap (fun e => match e with EvDecode _ b _ => Some b | _ => None end) tr.
Definition decoded (tr : list event) : list (list entry) :=
  batch_entries <$> decode_batches tr.

(** ** Reading a trace

    [decodes_on c tr]: every call of [llama_decode] in [tr] was made
    on the context [c]. *)
Definition decodes_on (c : ptr) (tr : list event) : Prop :=
  Forall (fun e => match e with EvDecode c' _ _ => c' = c | _ => True end) tr.

(** The sampling calls of a trace: the index each one reads the logits
    at, paired with the batch of the last evaluation before it ([cur]
    for a call that no evaluation precedes). *)
Fixpoint sample_reads (cur : llama_batch) (tr : list event)
    : list (llama_batch * Z) :=
  match tr with
  | [] => []
  | EvDecode _ b _ :: rest => sample_reads b rest
  | EvSample _ idx _ :: rest => (cur, idx) :: sample_reads cur rest
  | _ :: rest => sample_reads cur rest
  end.

(** The index is that of the batch's last entry, and the batch asked
    for the logits of that entry. *)
Definition reads_last_logits (r : llama_batch * Z) : Prop :=
  0 <= r.2 /\ r.2 = n_tokens r.1 - 1 /\
  logits r.1 !! Z.to_nat r.2 = Some true.

Section Bridge.
Context {W : Type} `{InferenceEngine W}.

(** ** nativeInitContext *)

Definition nativeInitContext (modelPtr : ptr) (nCtx nThreads : Z)
    (temperature : jfloat) (s : state W) : ptr * state W :=
  if decide (modelPtr = 0) then (0, s)
  else
    let model := modelPtr in
    let threads :=
      if decide (0 < nThreads) then nThreads else DEFAULT_N_THREADS in
    let ctx_params :=
      mk_context_params (nCtx mod 2 ^ 32) DEFAULT_N_BATCH DEFAULT_N_BATCH
                        threads threads in
    let '(context, w1) := llama_init_from_model model ctx_params (world s) in
    if decide (context = 0) then
      (0, mk_state (g_model s) (g_context s) (g_batch s) (g_sampler s)
                   (g_grammar s) w1)
    else
      let sparams := mk_params_sampling temperature TOP_P_095 40 in
      let '(smpl, w2) := common_sampler_init model sparams w1 in
      if decide (smpl = 0) then
        (0, mk_state (g_model s) (g_context s) (g_batch s) smpl
                     (g_grammar s) (llama_free context w2))
      else
        (context,
         mk_state (g_model s) context
                  (llama_batch_init DEFAULT_N_BATCH 0 1) smpl
                  (g_grammar s) w2).

(** ** nativeGenerate *)

(** The prompt loop: [common_batch_add(g_batch, tokens[i], i, {0},
    false)] for [i] from the given index on. *)
Fixpoint prompt_fill (i : Z) (tokens : list llama_token)
    (b : llama_batch) : option llama_batch :=
  match tokens with
  | [] => Some b
  | t :: rest =>
      match common_batch_add b t i [0] false with
      | Some b' => prompt_fill (i + 1) rest b'
      | None => None
      end
  end.

(** The locals and globals the generation loop updates. *)
Record loop_state := mk_loop {
  generated : list byte;
  n_generated : Z;
  l_batch : llama_batch;
  l_world : W;
  l_trace : list event
}.

Inductive loop_exit :=
| ExitLoop
| ExitCrash (f : fault)
| ExitFuel.

(** The batch [b] of the next step: built from the cleared batch by
    adding [tok] at the position the cleared batch's count gives, and
    kept as the loop's batch. *)
Definition next_batch (l : loop_state) (tok : llama_token)
    (b : llama_batch) (l' : loop_state) : Prop :=
  common_batch_add (common_batch_clear (l_batch l)) tok
                   (n_tokens (common_batch_clear (l_batch l))) [0] true
    = Some b /\
  l_batch l' = b.

Section Loop.
Variables (model context smpl : ptr) (maxTokens : Z)
          (onTokenMethod : bool).

(** One pass through the body of [while (n_generated < maxTokens)],
    up to the point where the loop either ends or goes round. *)
Definition loop_body (l : loop_state) : loop_exit * loop_state + loop_state :=
  let idx := n_tokens (l_batch l) - 1 in
  let '(tok, w1) := common_sampler_sample smpl context idx (l_world l) in
  let w2 := common_sampler_accept smpl tok true w1 in
  let tr1 := l_trace l ++ [EvSample (n_generated l) idx tok] in
  let '(n_chars, written) := llama_token_to_piece model tok 255 in
  let token_str := fill_buffer 256 written in
  let gen' :=
    if decide (0 < n_chars)
    then generated l ++ take (Z.to_nat n_chars) token_str
    else generated l in
  let tr2 :=
    if decide (0 < n_chars)
    then (if onTokenMethod
          then tr1 ++ [EvOnToken (n_generated l) (c_str token_str)]
          else tr1)
    else tr1 in
  let n' := n_generated l + 1 in
  if decide (tok = llama_token_eos model) then
    inl (ExitLoop, mk_loop gen' n' (l_batch l) w2 tr2)
  else
    let b0 := common_batch_clear (l_batch l) in
    match common_batch_add b0 tok (n_tokens b0) [0] true with
    | None => inl (ExitCrash BatchOverflow, mk_loop gen' n' b0 w2 tr2)
    | Some b1 =>
        let '(rc, w3) := llama_decode context b1 w2 in
        let tr3 := tr2 ++ [EvDecode context b1 rc] in
        if decide (rc <> 0) then
          inl (ExitLoop, mk_loop gen' n' b1 w3 tr3)
        else
          inr (mk_loop gen' n' b1 w3 tr3)
    end.

Fixpoint generate_loop (fuel : nat) (l : loop_state)
    : loop_exit * loop_state :=
  if decide (n_generated l < maxTokens) then
    match fuel with
    | O => (ExitFuel, l)
    | S fuel' =>
        match loop_body l with
        | inl done => done
        | inr l' => generate_loop fuel' l'
        end
    end
  else (ExitLoop, l).
End Loop.

Definition with_batch (s : state W) (b : llama_batch) (w : W) : state W :=
  mk_state (g_model s) (g_context s) b (g_sampler s) (g_grammar s) w.

(** [nativeGenerate], run with the given fuel for its [while] loop.
    The result is the C string handed to [NewStringUTF]. *)
Definition nativeGenerate_fuel (fuel : nat) (contextPtr : ptr)
    (prompt : list byte) (maxTokens : Z) (temperature : jfloat)
    (grammar : option (list byte)) (callback : jcallback) (s : state W)
    : outcome (list byte) * state W * list event :=
  if decide (contextPtr = 0 \/ g_model s = 0) then (Returned [], s, [])
  else
    let context := contextPtr in
    let tokens := common_tokenize (g_model s) prompt true in
    let onTokenMethod := has_onToken callback in
    let w1 := common_sampler_reset (g_sampler s) (world s) in
    match prompt_fill 0 tokens (g_batch s) with
    | None => (Crashed BatchOverflow, with_batch s (g_batch s) w1, [])
    | Some b1 =>
        match store_logits b1 (n_tokens b1 - 1) true with
        | None => (Crashed OutOfBounds, with_batch s b1 w1, [])
        | Some b2 =>
            let '(rc, w2) := llama_decode context b2 w1 in
            let tr0 := [EvDecode context b2 rc] in
            if decide (rc <> 0) then (Returned [], with_batch s b2 w2, tr0)
            else
              let '(ex, l) :=
                generate_loop (g_model s) context (g_sampler s) maxTokens
                              onTokenMethod fuel
                              (mk_loop [] 0 b2 w2 tr0) in
              let s' := with_batch s (l_batch l) (l_world l) in
              match ex with
              | ExitLoop => (Returned (c_str (generated l)), s', l_trace l)
              | ExitCrash f => (Crashed f, s', l_trace l)
              | ExitFuel => (OutOfFuel, s', l_trace l)
              end
        end
    end.

(** The loop runs while [n_generated < maxTokens], counting up from
    zero: [maxTokens] rounds of fuel are enough (see
    [generate_loop_fuel]). *)
Definition nativeGenerate (contextPtr : ptr) (prompt : list byte)
    (maxTokens : Z) (temperature : jfloat) (grammar : option (list byte))
    (callback : jcallback) (s : state W)
    : outcome (list byte) * state W * list event :=
  nativeGenerate_fuel (Z.to_nat maxTokens) contextPtr prompt maxTokens
                      temperature grammar callback s.

(** ** The text of a run, read off its events *)

(** The fragment of a token: the bytes the loop appends to
    [generated] for it, [std::string(token_str, n_chars)] when
    [n_chars > 0] and nothing otherwise. *)
Definition fragment (model : ptr) (tok : llama_token) : list byte :=
  let '(n_chars, written) := llama_token_to_piece model tok 255 in
  if decide (0 < n_chars)
  then take (Z.to_nat n_chars) (fill_buffer 256 written)
  else [].

(** The text accumulated by the steps of a trace. *)
Definition accumulated (model : ptr) (tr : list event) : list byte :=
  concat (fragment model <$> sampled tr).

(** The callback events of one step: the fragment goes to the sink,
    as a C string, when it is non-empty and the method was found. *)
Definition delivery (model : ptr) (onTokenMethod : bool) (n : Z)
    (tok : llama_token) : list event :=
  if onTokenMethod then
    if decide (fragment model tok = []) then []
    else [EvOnToken n (c_str (fragment model tok))]
  else [].

(** The state machine of the loop, [(Sampling -> Decoding)*], as a
    grammar of event traces: [loop_trace n ex tr] reads "from
    [n_generated = n] the loop can emit [tr] and leave with [ex]". *)
Inductive loop_trace (model context : ptr) (maxTokens : Z)
    (onTokenMethod : bool) : Z -> loop_exit -> list event -> Prop :=
| trace_limit n :
    ~ n < maxTokens ->
    loop_trace model context maxTokens onTokenMethod n ExitLoop []
| trace_fuel n :
    n < maxTokens ->
    loop_trace model context maxTokens onTokenMethod n ExitFuel []
| trace_eos n idx tok :
    n < maxTokens -> tok = llama_token_eos model ->
    loop_trace model context maxTokens onTokenMethod n ExitLoop
      (EvSample n idx tok :: delivery model onTokenMethod n tok)
| trace_decode_failed n idx tok b rc :
    n < maxTokens -> tok <> llama_token_eos model -> rc <> 0 ->
    loop_trace model context maxTokens onTokenMethod n ExitLoop
      (EvSample n idx tok :: delivery model onTokenMethod n tok
         ++ [EvDecode context b rc])
| trace_overflow n idx tok :
    n < maxTokens -> tok <> llama_token_eos model ->
    loop_trace model context maxTokens onTokenMethod n
      (ExitCrash BatchOverflow)
      (EvSample n idx tok :: delivery model onTokenMethod n tok)
| trace_step n idx tok b ex rest :
    n < maxTokens -> tok <> llama_token_eos model ->
    loop_trace model context maxTokens onTokenMethod (n + 1) ex rest ->
    loop_trace model context maxTokens onTokenMethod n ex
      (EvSample n idx tok :: delivery model onTokenMethod n tok
         ++ EvDecode context b 0 :: rest).

(** ** nativeFreeContext *)

Definition nativeFreeContext (contextPtr : ptr) (s : state W)
    : state W * list event :=
  let '(w1, tr1) :=
    if decide (contextPtr <> 0)
    then (llama_free contextPtr (world s), [EvContextFree contextPtr])
    else (world s, []) in
  let '(smpl, w2, tr2) :=
    if decide (g_sampler s <> 0)
    then (0, common_sampler_free (g_sampler s) w1,
          tr1 ++ [EvSamplerFree (g_sampler s)])
    else (g_sampler s, w1, tr1) in
  let '(batch, w3, tr3) :=
    if decide (0 < n_tokens (g_batch s))
    then (batch_zero, llama_batch_free (g_batch s) w2,
          tr2 ++ [EvBatchFree])
    else (g_batch s, w2, tr2) in
  (mk_state (g_model s) 0 batch smpl (g_grammar s) w3, tr3).

End Bridge.

(** ** Model load and unload

    [nativeLoadModel] and [nativeFreeModel] call two more functions of
    the engine; they are an interface of their own, next to
    [InferenceEngine]. *)

Class ModelStore (W : Type) := {
  (** [llama_load_model_from_file path params], with
      [params = llama_model_default_params()] but for [n_gpu_layers],
      which is the second argument here. *)
  llama_load_model_from_file : list byte -> Z -> W -> ptr * W;
  llama_free_model : ptr -> W -> W
}.

(** The calls the two functions make, in program order. *)
Inductive model_event :=
| EvModelLoad (path : list byte) (n_gpu_layers : Z) (model : ptr)
| EvModelFree (model : ptr).

(** ** Decimal output

    [snprintf(result, size, "%zu", n)]: the decimal digits of [n],
    most significant first, no leading zero, "0" for zero; at most
    [size - 1] of them are stored, followed by a NUL. *)

Definition digit (d : N) : byte :=
  match d with
  | 0 => x30 | 1 => x31 | 2 => x32 | 3 => x33 | 4 => x34
  | 5 => x35 | 6 => x36 | 7 => x37 | 8 => x38 | _ => x39
  end%N.

(** The digits of [n], least significant first.  [n] loses a factor of
    ten every round, so [log2 n + 1] rounds of fuel are enough (see
    [decimal_value]). *)
Fixpoint decimal_rev (fuel : nat) (n : N) : list byte :=
  match fuel with
  | O => []
  | S fuel' =>
      digit (n mod 10) ::
      (if (n / 10 =? 0)%N then [] else decimal_rev fuel' (n / 10)%N)
  end.

Definition decimal (n : N) : list byte :=
  rev (decimal_rev (S (N.to_nat (N.log2 n))) n).

Definition snprintf_zu (size : nat) (n : N) : list byte :=
  take (size - 1) (decimal n) ++ [x00].

(** The number a string of decimal digits denotes (what a reader of
    the token count computes from it). *)
Definition digit_value (c : byte) : N := (Byte.to_N c - 48)%N.

Definition decimal_value_rev (ds : list byte) : N :=
  foldr (fun c acc => (digit_value c + 10 * acc)%N) 0%N ds.

Definition decimal_value (ds : list byte) : N :=
  decimal_value_rev (rev ds).

Definition is_digit (c : byte) : Prop :=
  (48 <= Byte.to_N c <= 57)%N.

Section Lifecycle.
Context {W : Type} `{InferenceEngine W} `{ModelStore W}.

(** ** nativeLoadModel

    [nCtx] is logged and not used. *)
Definition nativeLoadModel (modelPath : list byte) (nCtx nGpuLayers : Z)
    (s : state W) : ptr * state W * list model_event :=
  let model_path_cstr := modelPath in
  let n_gpu_layers := nGpuLayers in
  let '(model, w1) :=
    llama_load_model_from_file model_path_cstr n_gpu_layers (world s) in
  let calls := [EvModelLoad model_path_cstr n_gpu_layers model] in
  if decide (model = 0) then
    (0, mk_state (g_model s) (g_context s) (g_batch s) (g_sampler s)
                 (g_grammar s) w1, calls)
  else
    (model, mk_state model (g_context s) (g_batch s) (g_sampler s)
                     (g_grammar s) w1, calls).

(** ** nativeFreeModel *)
Definition nativeFreeModel (modelPtr : ptr) (s : state W)
    : state W * list model_event :=
  let '(w1, calls) :=
    if decide (modelPtr <> 0)
    then (llama_free_model modelPtr (world s), [EvModelFree modelPtr])
    else (world s, []) in
  (mk_state 0 (g_context s) (g_batch s) (g_sampler s) (g_grammar s) w1,
   calls).

(** ** nativeTokenize

    The result is the C string handed to [NewStringUTF]: the empty
    string without a model, the token count in decimal otherwise. *)
Definition nativeTokenize (modelPtr : ptr) (text : list byte) : list byte :=
  if decide (modelPtr = 0) then c_str []
  else
    let model := modelPtr in
    let tokens := common_tokenize model text true in
    let result := snprintf_zu 64 (N.of_nat (length tokens)) in
    c_str result.

End Lifecycle.

(** ** A scripted engine

    An engine small enough to run: the sampler plays back a list of
    tokens, the evaluation plays back a list of return codes.  Its
    vocabulary is byte-level: token [t] in [0, 256) is the single byte
    [t], token 256 is the end-of-sequence token and spells "</s>",
    every other token is a control token with no text.  The tokenizer
    maps each byte of the text to its token and adds no marker. *)

Module Scripted.

Record script := mk_script {
  to_sample : list llama_token;
  decode_rcs : list Z
}.

Definition EOS : llama_token := 256.

Definition piece (tok : llama_token) : list byte :=
  if decide (tok = EOS) then [x3c; x2f; x73; x3e]
  else if decide (0 <= tok < 256) then
    match Byte.of_N (Z.to_N tok) with Some c => [c] | None => [] end
  else [].

Definition token_to_piece (model : ptr) (tok : llama_token) (len : Z)
    : Z * list byte :=
  if decide (Z.of_nat (length (piece tok)) <= len)
  then (Z.of_nat (length (piece tok)), piece tok)
  else (- Z.of_nat (length (piece tok)), []).

Definition tokenize (model : ptr) (text : list byte) (add_special : bool)
    : list llama_token :=
  (fun c => Z.of_N (Byte.to_N c)) <$> text.

Definition sample (smpl context : ptr) (idx : Z) (w : script)
    : llama_token * script :=
  match to_sample w with
  | [] => (EOS, w)
  | t :: rest => (t, mk_script rest (decode_rcs w))
  end.

Definition decode (context : ptr) (b : llama_batch) (w : script)
    : Z * script :=
  match decode_rcs w with
  | [] => (0, w)
  | rc :: rest => (rc, mk_script (to_sample w) rest)
  end.

#[export] Program Instance engine : InferenceEngine script := {|
  llama_init_from_model := fun _ _ w => (100, w);
  llama_free := fun _ w => w;
  llama_decode := decode;
  llama_batch_free := fun _ w => w;
  llama_token_to_piece := token_to_piece;
  llama_token_eos := fun _ => EOS;
  common_tokenize := tokenize;
  common_sampler_init := fun _ _ w => (200, w);
  common_sampler_reset := fun _ w => w;
  common_sampler_sample := sample;
  common_sampler_accept := fun _ _ _ w => w;
  common_sampler_free := fun _ w => w
|}.
Next Obligation.
  intros model tok len. unfold token_to_piece.
  destruct (decide (Z.of_nat (length (piece tok)) <= len)); simpl; lia.
Qed.

(** The globals once [nativeLoadModel] has stored the handle [1]. *)
Definition loaded (w : script) : state script :=
  mk_state 1 0 batch_zero 0 [] w.

(** A session started on it: context handle [100], sampler handle
    [200], a fresh batch of capacity 512. *)
Definition session (w : script) : state script :=
  (nativeInitContext 1 128 4 DEFAULT_TEMPERATURE (loaded w)).2.

Definition sink : jcallback := mk_callback true.
Definition no_sink_method : jcallback := mk_callback false.

(** The prompts "hi" and "yo". *)
Definition hi : list byte := [x68; x69].
Definition yo : list byte := [x79; x6f].

(** A session that has served one request: prompt "hi", one token
    to generate, the sampler playing back the given tokens. *)
Definition used_session (w : script) : state script :=
  (nativeGenerate 100 hi 1 DEFAULT_TEMPERATURE None sink (session w)).1.2.

(** The batch of the last evaluation of a trace. *)
Definition last_batch (tr : list event) : llama_batch :=
  List.last (decode_batches tr) batch_zero.

(** Loading succeeds, with handle [1], for every path but the empty
    one. *)
#[export] Instance model_store : ModelStore script := {|
  llama_load_model_from_file :=
    fun path _ w => (if decide (path = []) then 0 else 1, w);
  llama_free_model := fun _ w => w
|}.

End Scripted.

(** * Facts *)

(** ** C strings and the piece buffer *)

Lemma c_str_no_nul (l : list byte) : x00 ∉ l -> c_str l = l.
Proof.
  induction l as [|c l IH]; simpl; [done|].
  intros [Hc Hl]%not_elem_of_cons.
  destruct (Byte.eqb c x00) eqn:E.
  - apply Byte.byte_dec_bl in E. congruence.
  - by rewrite IH.
Qed.

Lemma c_str_app_zeros (l : list byte) (k : nat) :
  c_str (l ++ replicate k x00) = c_str l.
Proof.
  induction l as [|c l IH]; simpl.
  - by destruct k.
  - by rewrite IH.
Qed.

Lemma c_str_nul_free (l : list byte) : x00 ∉ c_str l.
Proof.
  induction l as [|c l IH]; simpl; [apply not_elem_of_nil|].
  destruct (Byte.eqb c x00) eqn:E; [apply not_elem_of_nil|].
  apply not_elem_of_cons. split; [|done].
  intros <-. discriminate E.
Qed.

Lemma fill_buffer_short (size : nat) (written : list byte) :
  (length written <= size)%nat ->
  fill_buffer size written = written ++ replicate (size - length written) x00.
Proof.
  intros Hlen. unfold fill_buffer.
  rewrite take_app_ge by done. rewrite take_replicate.
  do 2 f_equal. lia.
Qed.

(** ** The batch buffer *)

Lemma batch_entries_length (b : llama_batch) :
  length (batch_entries b) = Z.to_nat (n_tokens b).
Proof. unfold batch_entries. by rewrite length_fmap, length_seq. Qed.

Lemma batch_entries_clear (b : llama_batch) :
  batch_entries (common_batch_clear b) = [].
Proof. reflexivity. Qed.

(** Adding to a batch with a free slot appends one entry and touches
    no other. *)
Lemma common_batch_add_entries (cap : nat) (b : llama_batch)
    (id : llama_token) (p : llama_pos) (seq_ids : list llama_seq_id)
    (lg : bool) :
  batch_wf cap b -> 0 <= n_tokens b -> (Z.to_nat (n_tokens b) < cap)%nat ->
  exists b',
    common_batch_add b id p seq_ids lg = Some b' /\
    batch_wf cap b' /\
    n_tokens b' = n_tokens b + 1 /\
    batch_entries b' = batch_entries b ++ [mk_entry id p seq_ids lg].
Proof.
  intros (Ht & Hp & Hn & Hs & Hl) Hpos Hroom.
  unfold common_batch_add.
  destruct (lookup_lt_is_Some_2 (seq_id b) (Z.to_nat (n_tokens b)))
    as [row Hrow]; [lia|].
  rewrite Hrow. destruct (decide (0 <= n_tokens b)); [|lia].
  eexists. split; [reflexivity|].
  split; [|split; [reflexivity|]].
  { unfold batch_wf. simpl. by rewrite !length_insert. }
  unfold batch_entries. simpl.
  replace (Z.to_nat (n_tokens b + 1)) with (S (Z.to_nat (n_tokens b))) by lia.
  rewrite seq_S, fmap_app. simpl. f_equal.
  - apply Forall_fmap_ext_1, Forall_seq. intros j Hj.
    unfold batch_slot. simpl.
    by rewrite !list_lookup_total_insert_ne by lia.
  - unfold batch_slot. simpl.
    rewrite !list_lookup_total_insert_eq by lia.
    by rewrite Nat2Z.id, take_app_length.
Qed.

(** Lines 267-268: whatever the batch held, the batch built for the
    next step holds the sampled token alone, with emit-logits set, at
    position 0: the position passed is the fill count of the batch just
    cleared. *)
Lemma next_step_batch (cap : nat) (b : llama_batch) (tok : llama_token) :
  batch_wf cap b -> (0 < cap)%nat ->
  exists b',
    common_batch_add (common_batch_clear b) tok
                     (n_tokens (common_batch_clear b)) [0] true = Some b' /\
    batch_wf cap b' /\
    batch_entries b' = [mk_entry tok 0 [0] true].
Proof.
  intros Hwf Hcap.
  destruct (common_batch_add_entries cap (common_batch_clear b) tok
              (n_tokens (common_batch_clear b)) [0] true)
    as (b' & Hadd & Hwf' & _ & Hentries); [done|simpl; lia..|].
  exists b'. by rewrite Hentries.
Qed.

(** Lines 225-227: the prompt loop appends the prompt's tokens, at
    positions counted from the loop index, to whatever the batch
    holds. *)
Lemma prompt_fill_entries (cap : nat) (tokens : list llama_token) :
  forall (i : Z) (b : llama_batch),
    batch_wf cap b -> 0 <= n_tokens b ->
    (Z.to_nat (n_tokens b) + length tokens <= cap)%nat ->
    exists b',
      prompt_fill i tokens b = Some b' /\
      batch_wf cap b' /\
      n_tokens b' = n_tokens b + Z.of_nat (length tokens) /\
      batch_entries b' =
        batch_entries b ++
        imap (fun j t => mk_entry t (i + Z.of_nat j) [0] false) tokens.
Proof.
  induction tokens as [|t rest IH]; intros i b Hwf Hpos Hroom; simpl.
  - exists b. rewrite app_nil_r. split_and!; (done || lia).
  - simpl in Hroom.
    destruct (common_batch_add_entries cap b t i [0] false)
      as (b1 & -> & Hwf1 & Hn1 & He1); [done|lia..|].
    destruct (IH (i + 1) b1) as (b' & -> & Hwf' & Hn' & He'); [done|lia..|].
    exists b'. split_and!; [done|done|lia|].
    rewrite He', He1, <- app_assoc. simpl. do 2 f_equal.
    + f_equal. lia.
    + apply imap_ext. intros j x _. simpl. f_equal. lia.
Qed.

(** Line 228: the store sets the flag of the last entry of the batch,
    whichever entry that is. *)
Lemma store_logits_last_entry (cap : nat) (b : llama_batch) :
  batch_wf cap b -> 0 < n_tokens b -> (Z.to_nat (n_tokens b) <= cap)%nat ->
  exists b',
    store_logits b (n_tokens b - 1) true = Some b' /\
    batch_entries b' =
      alter emit_logits (Z.to_nat (n_tokens b - 1)) (batch_entries b).
Proof.
  intros (Ht & Hp & Hn & Hs & Hl) Hpos Hroom.
  unfold store_logits. rewrite decide_True by lia.
  eexists. split; [reflexivity|].
  apply list_eq. intros j.
  unfold batch_entries. simpl.
  destruct (decide (j < Z.to_nat (n_tokens b))%nat) as [Hj|Hj].
  - destruct (decide (Z.to_nat (n_tokens b - 1) = j)) as [<-|Hne].
    + rewrite list_lookup_alter_eq, !list_lookup_fmap, lookup_seq_lt by done.
      simpl. unfold batch_slot. simpl.
      by rewrite list_lookup_total_insert_eq by lia.
    + rewrite list_lookup_alter_ne by done.
      rewrite !list_lookup_fmap, lookup_seq_lt by done.
      simpl. unfold batch_slot. simpl.
      by rewrite list_lookup_total_insert_ne.
  - rewrite list_lookup_alter_ne by lia.
    by rewrite !list_lookup_fmap, lookup_seq_ge by lia.
Qed.

Lemma common_batch_add_wf (cap : nat) (b b' : llama_batch) id p seq_ids lg :
  common_batch_add b id p seq_ids lg = Some b' ->
  batch_wf cap b -> batch_wf cap b'.
Proof.
  unfold common_batch_add. intros Hadd (Ht & Hp & Hn & Hs & Hl).
  destruct (decide (0 <= n_tokens b)); [|done].
  destruct (seq_id b !! Z.to_nat (n_tokens b)); [|done].
  simplify_eq. unfold batch_wf. simpl. by rewrite !length_insert.
Qed.

Lemma prompt_fill_wf (cap : nat) (tokens : list llama_token) :
  forall i b b',
    prompt_fill i tokens b = Some b' -> batch_wf cap b -> batch_wf cap b'.
Proof.
  induction tokens as [|t rest IH]; intros i b b' Hfill Hwf; simpl in Hfill.
  - by simplify_eq.
  - destruct (common_batch_add b t i [0] false) as [b1|] eqn:Hadd; [|done].
    eapply IH; [exact Hfill|]. by eapply common_batch_add_wf.
Qed.

Lemma store_logits_wf (cap : nat) (b b' : llama_batch) i v :
  store_logits b i v = Some b' -> batch_wf cap b -> batch_wf cap b'.
Proof.
  unfold store_logits. intros Hstore (Ht & Hp & Hn & Hs & Hl).
  destruct (decide (0 <= i < Z.of_nat (length (logits b)))); [|done].
  simplify_eq. unfold batch_wf. simpl. by rewrite length_insert.
Qed.

(** A store through index -1, which is where [n_tokens - 1] points in
    an empty batch, is outside the array. *)
Lemma store_logits_empty (b : llama_batch) (v : bool) :
  n_tokens b = 0 -> store_logits b (n_tokens b - 1) v = None.
Proof.
  intros ->. unfold store_logits. by rewrite decide_False by lia.
Qed.

Lemma c_str_fragments_nul_free (l : list (list byte)) :
  (forall f, f ∈ l -> x00 ∉ f) -> c_str <$> l = l.
Proof.
  induction l as [|f l IH]; intros Hl; [done|].
  rewrite fmap_cons, c_str_no_nul by (apply Hl; left).
  rewrite IH; [done|]. intros g Hg. apply Hl. by right.
Qed.

Lemma concat_nul_free (l : list (list byte)) :
  (forall f, f ∈ l -> x00 ∉ f) -> x00 ∉ concat l.
Proof.
  induction l as [|f l IH]; intros Hl; simpl; [apply not_elem_of_nil|].
  apply not_elem_of_app. split; [apply Hl; left|].
  apply IH. intros g Hg. apply Hl. by right.
Qed.

Lemma concat_nonempty (l : list (list byte)) :
  concat (filter (fun f => f <> []) l) = concat l.
Proof.
  induction l as [|f l IH]; [done|].
  rewrite filter_cons. destruct (decide (f <> [])) as [Hf|Hf]; simpl.
  - by rewrite IH.
  - destruct f; [by rewrite IH | by destruct Hf].
Qed.

Section BridgeFacts.
Context {W : Type} `{InferenceEngine W}.

(** With the engine's contract, the fragment of a token is the bytes
    the engine stored, and the C string read from the buffer is the C
    string of the fragment. *)
Lemma fragment_cases (model : ptr) (tok : llama_token) :
  let r := llama_token_to_piece model tok 255 in
  (0 < r.1 /\ fragment model tok = r.2 /\ fragment model tok <> [] /\
   c_str (fill_buffer 256 r.2) = c_str (fragment model tok) /\
   take (Z.to_nat r.1) (fill_buffer 256 r.2) = fragment model tok)
  \/ (~ 0 < r.1 /\ fragment model tok = []).
Proof.
  intros r. unfold fragment. fold r.
  pose proof (llama_token_to_piece_fits model tok 255) as Hfit. fold r in Hfit.
  destruct r as [n written]; simpl in *.
  destruct (decide (0 < n)) as [Hn|Hn]; [left|by right].
  destruct (Hfit Hn) as [Hle Hlen].
  assert (Hfill : take (Z.to_nat n) (fill_buffer 256 written) = written).
  { rewrite fill_buffer_short by lia.
    apply take_app_length'. lia. }
  rewrite Hfill. repeat split; try done.
  - intros ->. simpl in Hlen. lia.
  - rewrite fill_buffer_short by lia. apply c_str_app_zeros.
Qed.

Lemma fragment_length (model : ptr) (tok : llama_token) :
  (length (fragment model tok) <= 255)%nat.
Proof.
  pose proof (llama_token_to_piece_fits model tok 255) as Hfit.
  destruct (fragment_cases model tok) as [(Hn & -> & _)|[_ ->]]; simpl; [|lia].
  destruct (Hfit Hn). lia.
Qed.

(** ** Reading traces *)

Lemma sampled_app (t1 t2 : list event) :
  sampled (t1 ++ t2) = sampled t1 ++ sampled t2.
Proof. apply omap_app. Qed.

Lemma delivered_app (t1 t2 : list event) :
  delivered (t1 ++ t2) = delivered t1 ++ delivered t2.
Proof. apply omap_app. Qed.

Lemma delivery_steps_app (t1 t2 : list event) :
  delivery_steps (t1 ++ t2) = delivery_steps t1 ++ delivery_steps t2.
Proof. apply omap_app. Qed.

Lemma accumulated_app (model : ptr) (t1 t2 : list event) :
  accumulated model (t1 ++ t2) = accumulated model t1 ++ accumulated model t2.
Proof.
  unfold accumulated. by rewrite sampled_app, fmap_app, concat_app.
Qed.

Lemma decoded_app (t1 t2 : list event) :
  decoded (t1 ++ t2) = decoded t1 ++ decoded t2.
Proof. unfold decoded, decode_batches. by rewrite omap_app, fmap_app. Qed.

Lemma decoded_delivery model onTok n tok :
  decoded (delivery model onTok n tok) = [].
Proof.
  unfold delivery. destruct onTok; [|done].
  by destruct (decide (fragment model tok = [])).
Qed.

Lemma sampled_delivery model onTok n tok :
  sampled (delivery model onTok n tok) = [].
Proof.
  unfold delivery. destruct onTok; [|done].
  by destruct (decide (fragment model tok = [])).
Qed.

Lemma accumulated_delivery model onTok n tok :
  accumulated model (delivery model onTok n tok) = [].
Proof. unfold accumulated. by rewrite sampled_delivery. Qed.

Lemma delivery_length model onTok n tok :
  (length (delivery model onTok n tok) <= 1)%nat.
Proof.
  unfold delivery. destruct onTok; [|simpl; lia].
  destruct (decide (fragment model tok = [])); simpl; lia.
Qed.

(** ** One pass through the loop body *)

Lemma body_text (model : ptr) (tok : llama_token) (gen : list byte) :
  (if decide (0 < (llama_token_to_piece model tok 255).1)
   then gen ++ take (Z.to_nat (llama_token_to_piece model tok 255).1)
                    (fill_buffer 256 (llama_token_to_piece model tok 255).2)
   else gen)
  = gen ++ fragment model tok.
Proof.
  destruct (fragment_cases model tok) as [(Hn & _ & _ & _ & Htake)|[Hn ->]];
    simpl in *.
  - rewrite decide_True by done. by rewrite Htake.
  - rewrite decide_False by done. by rewrite app_nil_r.
Qed.

Lemma body_delivery (model : ptr) (tok : llama_token) (onTok : bool)
    (k : Z) (tr : list event) :
  (if decide (0 < (llama_token_to_piece model tok 255).1)
   then (if onTok
         then tr ++ [EvOnToken k
                (c_str (fill_buffer 256 (llama_token_to_piece model tok 255).2))]
         else tr)
   else tr)
  = tr ++ delivery model onTok k tok.
Proof.
  unfold delivery.
  destruct (fragment_cases model tok) as [(Hn & _ & Hne & Hc & _)|[Hn Hnil]];
    simpl in *.
  - rewrite decide_True by done. destruct onTok; [|by rewrite app_nil_r].
    rewrite decide_False by done. by rewrite Hc.
  - rewrite decide_False by done. rewrite Hnil.
    destruct onTok; simpl; by rewrite app_nil_r.
Qed.

Section LoopFacts.
Variables (model context smpl : ptr) (maxTokens : Z) (onTok : bool).

Lemma loop_body_trace (l : loop_state) :
  exists idx tok tail l',
    n_generated l' = n_generated l + 1 /\
    generated l' = generated l ++ fragment model tok /\
    l_trace l' = l_trace l ++
      EvSample (n_generated l) idx tok ::
      delivery model onTok (n_generated l) tok ++ tail /\
    ((loop_body model context smpl onTok l = inr l' /\
      tok <> llama_token_eos model /\
      exists b, tail = [EvDecode context b 0] /\ next_batch l tok b l')
     \/ (loop_body model context smpl onTok l = inl (ExitLoop, l') /\
         tok = llama_token_eos model /\ tail = [] /\
         l_batch l' = l_batch l)
     \/ (loop_body model context smpl onTok l = inl (ExitLoop, l') /\
         tok <> llama_token_eos model /\
         exists b rc, rc <> 0 /\ tail = [EvDecode context b rc] /\
                      next_batch l tok b l')
     \/ (loop_body model context smpl onTok l
           = inl (ExitCrash BatchOverflow, l') /\
         tok <> llama_token_eos model /\ tail = [] /\
         l_batch l' = common_batch_clear (l_batch l))).
Proof.
  unfold loop_body, next_batch.
  destruct (common_sampler_sample smpl context (n_tokens (l_batch l) - 1)
              (l_world l)) as [tok w1] eqn:Hs.
  pose proof (body_text model tok (generated l)) as Htext.
  pose proof (body_delivery model tok onTok (n_generated l)
                (l_trace l ++
                   [EvSample (n_generated l) (n_tokens (l_batch l) - 1) tok]))
    as Hdel.
  destruct (llama_token_to_piece model tok 255) as [n_chars written].
  simpl in Htext, Hdel. rewrite Htext, Hdel. clear Htext Hdel.
  exists (n_tokens (l_batch l) - 1), tok.
  destruct (decide (tok = llama_token_eos model)) as [Heos|Heos].
  { eexists [], _. split_and!; cycle 3.
    - right; left. split_and!; [reflexivity|done..].
    - done.
    - done.
    - simpl. by rewrite app_nil_r, <- app_assoc. }
  destruct (common_batch_add _ tok _ [0] true) as [b1|] eqn:Hadd.
  2:{ eexists [], _. split_and!; cycle 3.
      - do 3 right. split_and!; [reflexivity|done..].
      - done.
      - done.
      - simpl. by rewrite app_nil_r, <- app_assoc. }
  destruct (llama_decode context b1 _) as [rc w3].
  destruct (decide (rc <> 0)) as [Hrc|Hrc].
  - eexists [EvDecode context b1 rc], _. split_and!; cycle 3.
    + right; right; left. split_and!; [reflexivity|done|].
      exists b1, rc. by split_and!.
    + done.
    + done.
    + simpl. rewrite <- !app_assoc. done.
  - assert (rc = 0) as -> by lia.
    eexists [EvDecode context b1 0], _. split_and!; cycle 3.
    + left. split_and!; [reflexivity|done|].
      exists b1. by split_and!.
    + done.
    + done.
    + simpl. rewrite <- !app_assoc. done.
Qed.

(** The loop emits a trace of the state machine, and its text is the
    text of that trace. *)
Lemma generate_loop_trace (fuel : nat) :
  forall l ex l',
    generate_loop model context smpl maxTokens onTok fuel l = (ex, l') ->
    exists tr,
      l_trace l' = l_trace l ++ tr /\
      generated l' = generated l ++ accumulated model tr /\
      loop_trace model context maxTokens onTok (n_generated l) ex tr.
Proof.
  induction fuel as [|fuel IH]; intros l ex l' Hrun; simpl in Hrun.
  - destruct (decide (n_generated l < maxTokens)); simplify_eq;
      exists []; rewrite !app_nil_r; repeat split; by constructor.
  - destruct (decide (n_generated l < maxTokens)) as [Hlt|Hge].
    2:{ simplify_eq. exists []. rewrite !app_nil_r.
        repeat split; by constructor. }
    destruct (loop_body_trace l)
      as (idx & tok & tail & l1 & Hn & Hgen & Htr & Hcase).
    assert (Hacc : forall rest,
      accumulated model
        (EvSample (n_generated l) idx tok ::
         delivery model onTok (n_generated l) tok ++ rest)
      = fragment model tok ++ accumulated model rest).
    { intros rest. change (EvSample ?a ?b ?c :: ?d) with ([EvSample a b c] ++ d).
      rewrite !accumulated_app, accumulated_delivery.
      unfold accumulated at 1. simpl. by rewrite app_nil_r. }
    destruct Hcase as [(Hb & Hne & b & -> & _)
                    |[(Hb & He & -> & _)
                    |[(Hb & Hne & b & rc & Hrc & -> & _)
                    |(Hb & Hne & -> & _)]]];
      rewrite Hb in Hrun.
    + destruct (IH _ _ _ Hrun) as (rest & Htr' & Hgen' & Hlt').
      exists (EvSample (n_generated l) idx tok ::
              delivery model onTok (n_generated l) tok ++
              EvDecode context b 0 :: rest).
      split; [|split].
      * rewrite Htr', Htr. rewrite <- !app_assoc. simpl.
        by rewrite <- !app_assoc.
      * rewrite Hgen', Hgen, <- app_assoc. f_equal.
        change (EvDecode context b 0 :: rest)
          with ([EvDecode context b 0] ++ rest).
        rewrite Hacc, accumulated_app. done.
      * rewrite Hn in Hlt'. by apply trace_step.
    + simplify_eq. eexists. split; [exact Htr|]. split.
      * rewrite Hgen, Hacc. unfold accumulated. simpl.
        by rewrite app_nil_r.
      * rewrite app_nil_r. by apply trace_eos.
    + simplify_eq. eexists. split; [exact Htr|]. split.
      * rewrite Hgen, Hacc. unfold accumulated. simpl.
        by rewrite app_nil_r.
      * by apply trace_decode_failed.
    + simplify_eq. eexists. split; [exact Htr|]. split.
      * rewrite Hgen, Hacc. unfold accumulated. simpl.
        by rewrite app_nil_r.
      * rewrite app_nil_r. by apply trace_overflow.
Qed.

(** [maxTokens - n_generated] rounds are enough: the loop's own
    condition ends it, not the fuel. *)
Lemma generate_loop_fuel (fuel : nat) :
  forall l,
    (Z.to_nat (maxTokens - n_generated l) <= fuel)%nat ->
    (generate_loop model context smpl maxTokens onTok fuel l).1 <> ExitFuel.
Proof.
  induction fuel as [|fuel IH]; intros l Hfuel; simpl.
  - destruct (decide (n_generated l < maxTokens)); [lia|done].
  - destruct (decide (n_generated l < maxTokens)) as [Hlt|]; [|done].
    destruct (loop_body_trace l)
      as (idx & tok & tail & l1 & Hn & _ & _ & Hcase).
    destruct Hcase as [(Hb & _)|[(Hb & _)|[(Hb & _)|(Hb & _)]]];
      rewrite Hb; simpl; try done.
    apply IH. rewrite Hn. lia.
Qed.

  (** ** Properties of the state machine's traces *)

Lemma delivery_cases (n : Z) (tok : llama_token) :
  (delivery model onTok n tok = [] /\
   (onTok = false \/ fragment model tok = []))
  \/ (delivery model onTok n tok = [EvOnToken n (c_str (fragment model tok))] /\
      onTok = true /\ fragment model tok <> []).
Proof.
  unfold delivery. destruct onTok; [|by left; eauto].
  destruct (decide (fragment model tok = [])); [left|right]; eauto.
Qed.

(** Every round samples once, and there are at most
    [maxTokens - n] rounds. *)
Lemma loop_trace_rounds n ex tr :
  loop_trace model context maxTokens onTok n ex tr ->
  (length (sampled tr) <= Z.to_nat (maxTokens - n))%nat.
Proof.
  induction 1 as [n Hn|n Hn|n idx tok Hn He|n idx tok b rc Hn He Hrc
                 |n idx tok Hn He|n idx tok b ex rest Hn He Hrest IH];
    simpl; try lia.
  - rewrite sampled_delivery. simpl. lia.
  - rewrite sampled_app, sampled_delivery. simpl. lia.
  - rewrite sampled_delivery. simpl. lia.
  - rewrite sampled_app, sampled_delivery. simpl. lia.
Qed.

(** Every round delivers at most one fragment. *)
Lemma loop_trace_deliveries n ex tr :
  loop_trace model context maxTokens onTok n ex tr ->
  (length (delivered tr) <= length (sampled tr))%nat.
Proof.
  induction 1 as [n Hn|n Hn|n idx tok Hn He|n idx tok b rc Hn He Hrc
                 |n idx tok Hn He|n idx tok b ex rest Hn He Hrest IH];
    simpl; try lia;
    rewrite ?sampled_app, ?delivered_app, ?sampled_delivery; simpl;
    destruct (delivery_cases n tok) as [[-> _]|(-> & _)]; simpl; lia.
Qed.

(** Deliveries carry the step they were made at: never before the
    step the trace starts from, and strictly increasing. *)
Lemma loop_trace_steps n ex tr :
  loop_trace model context maxTokens onTok n ex tr ->
  Forall (fun k => n <= k) (delivery_steps tr) /\
  StronglySorted Z.lt (delivery_steps tr).
Proof.
  induction 1 as [n Hn|n Hn|n idx tok Hn He|n idx tok b rc Hn He Hrc
                 |n idx tok Hn He|n idx tok b ex rest Hn He Hrest [IH1 IH2]];
    simpl; rewrite ?delivery_steps_app;
    try (split; [by repeat constructor | by repeat constructor]);
    destruct (delivery_cases n tok) as [[-> _]|(-> & _)]; simpl;
    try (split; [by repeat constructor | by repeat constructor]).
  - split; [|done]. eapply Forall_impl; [|exact IH1]. simpl. lia.
  - split.
    + constructor; [lia|]. eapply Forall_impl; [|exact IH1]. simpl. lia.
    + constructor; [done|]. eapply Forall_impl; [|exact IH1]. simpl. lia.
Qed.

Lemma delivered_delivery (n : Z) (tok : llama_token) :
  delivered (delivery model onTok n tok) =
    if onTok
    then c_str <$> filter (fun f => f <> []) [fragment model tok]
    else [].
Proof.
  unfold delivery. destruct onTok; [|done].
  rewrite filter_cons, filter_nil.
  destruct (decide (fragment model tok = [])),
           (decide (fragment model tok <> [])); done.
Qed.

(** What reaches the sink: when the method was found, the C string
    of every non-empty fragment, in order; nothing otherwise. *)
Lemma loop_trace_delivered n ex tr :
  loop_trace model context maxTokens onTok n ex tr ->
  delivered tr =
    if onTok
    then c_str <$> filter (fun f => f <> []) (fragment model <$> sampled tr)
    else [].
Proof.
  induction 1 as [n Hn|n Hn|n idx tok Hn He|n idx tok b rc Hn He Hrc
                 |n idx tok Hn He|n idx tok b ex rest Hn He Hrest IH];
    try (by destruct onTok).
  all: change (EvSample n idx tok :: ?t) with ([EvSample n idx tok] ++ t).
  all: rewrite ?sampled_app, ?delivered_app, ?sampled_delivery,
         ?delivered_delivery.
  all: try change (EvDecode context b ?rc :: ?t)
             with ([EvDecode context b rc] ++ t).
  all: rewrite ?sampled_app, ?delivered_app, ?IH.
  all: destruct onTok; [|done]; simpl.
  all: rewrite ?app_nil_r, !filter_cons, ?filter_nil.
  all: destruct (decide (fragment model tok <> [])); done.
Qed.

(** A failed evaluation is the last thing the loop does. *)
Lemma loop_trace_failed_decode n ex tr :
  loop_trace model context maxTokens onTok n ex tr ->
  forall t1 c b rc t2,
    tr = t1 ++ EvDecode c b rc :: t2 -> rc <> 0 ->
    t2 = [] /\ ex = ExitLoop.
Proof.
  induction 1 as [n Hn|n Hn|n idx tok Hn He|n idx tok b0 rc0 Hn He Hrc
                 |n idx tok Hn He|n idx tok b0 ex rest Hn He Hrest IH];
    intros t1 c b rc t2 Heq Hne;
    try (destruct (delivery_cases n tok) as [[Hd _]|(Hd & _)];
         rewrite Hd in Heq; simpl in Heq).
  all: try (by destruct t1 as [|? [|? [|? [|? t1]]]]; simplify_eq/=).
  - destruct t1 as [|? [|? t1]]; simplify_eq/=. eauto.
  - destruct t1 as [|? [|? [|? t1]]]; simplify_eq/=. eauto.
Qed.

(** Sampling the end-of-sequence token ends the loop: only the
    delivery of its fragment follows. *)
Lemma loop_trace_eos n ex tr :
  loop_trace model context maxTokens onTok n ex tr ->
  forall t1 k idx tok t2,
    tr = t1 ++ EvSample k idx tok :: t2 ->
    tok = llama_token_eos model ->
    t2 = delivery model onTok k tok /\ ex = ExitLoop /\
    k = n + Z.of_nat (length (sampled t1)) /\ k < maxTokens.
Proof.
  induction 1 as [n Hn|n Hn|n idx0 tok0 Hn He|n idx0 tok0 b0 rc0 Hn He Hrc
                 |n idx0 tok0 Hn He|n idx0 tok0 b0 ex rest Hn He Hrest IH];
    intros t1 k idx tok t2 Heq Heos.
  all: try (by destruct t1).
  all: destruct (delivery_cases n tok0) as [[Hd Hw]|(Hd & Hw)];
         rewrite Hd in Heq; simpl in Heq.
  1-2: destruct t1 as [|? [|? [|? t1]]]; simplify_eq/=;
         rewrite ?Hd; split_and!; (done || lia).
  1-4: by destruct t1 as [|? [|? [|? [|? t1]]]]; simplify_eq/=.
  - destruct t1 as [|? [|? t1]]; simplify_eq/=.
    destruct (IH _ _ _ _ _ eq_refl eq_refl) as (-> & -> & -> & Hk).
    split_and!; (done || lia).
  - destruct t1 as [|? [|? [|? t1]]]; simplify_eq/=.
    destruct (IH _ _ _ _ _ eq_refl eq_refl) as (-> & -> & -> & Hk).
    split_and!; (done || lia).
Qed.

(** Every batch the loop submits holds one token at position 0
    (given a batch with at least one slot). *)
Lemma generate_loop_batches (cap : nat) (fuel : nat) :
  forall l ex l',
    batch_wf cap (l_batch l) -> (0 < cap)%nat ->
    generate_loop model context smpl maxTokens onTok fuel l = (ex, l') ->
    exists tr,
      l_trace l' = l_trace l ++ tr /\
      Forall one_token_at_zero (decoded tr) /\
      batch_wf cap (l_batch l').
Proof.
  induction fuel as [|fuel IH]; intros l ex l' Hwf Hcap Hrun; simpl in Hrun.
  - destruct (decide (n_generated l < maxTokens)); simplify_eq;
      exists []; rewrite app_nil_r; split_and!; (done || constructor).
  - destruct (decide (n_generated l < maxTokens)) as [Hlt|Hge].
    2:{ simplify_eq. exists []. rewrite app_nil_r.
        split_and!; (done || constructor). }
    destruct (loop_body_trace l)
      as (idx & tok & tail & l1 & _ & _ & Htr & Hcase).
    destruct (next_step_batch cap (l_batch l) tok Hwf Hcap)
      as (b' & Hadd' & Hwf' & Hentries).
    assert (Hdec : forall rest,
      decoded (EvSample (n_generated l) idx tok ::
               delivery model onTok (n_generated l) tok ++ rest)
      = decoded rest).
    { intros rest.
      change (EvSample ?a ?b ?c :: ?d) with ([EvSample a b c] ++ d).
      by rewrite !decoded_app, decoded_delivery. }
    destruct Hcase as [(Hb & _ & b & -> & Hadd & Hbatch)
                      |[(Hb & _ & -> & Hbatch)
                      |[(Hb & _ & b & rc & _ & -> & Hadd & Hbatch)
                      |(Hb & _ & -> & Hbatch)]]];
      rewrite Hb in Hrun.
    + rewrite Hadd' in Hadd. simplify_eq.
      destruct (IH _ _ _ Hwf' Hcap Hrun) as (rest & Htr' & Hall & Hwf'').
      exists (EvSample (n_generated l) idx tok ::
              delivery model onTok (n_generated l) tok ++
              EvDecode context (l_batch l1) 0 :: rest).
      split_and!; [|rewrite Hdec|done].
      * rewrite Htr', Htr, <- !app_assoc. simpl. by rewrite <- !app_assoc.
      * constructor; [by exists tok|done].
    + simplify_eq. eexists. split; [exact Htr|]. rewrite Hdec, Hbatch.
      split; [constructor|done].
    + rewrite Hadd' in Hadd. simplify_eq.
      eexists. split; [exact Htr|]. rewrite Hdec.
      split; [|done]. constructor; [by exists tok|constructor].
    + simplify_eq. eexists. split; [exact Htr|]. rewrite Hdec, Hbatch.
      split; [constructor|]. by destruct Hwf as (? & ? & ? & ? & ?).
Qed.

End LoopFacts.

(** ** The shape of a call to nativeGenerate *)

(** A call either stops before any evaluation, or stops at a failed
    evaluation of the prompt, or evaluates the prompt and runs the
    loop. *)
Lemma nativeGenerate_fuel_trace fuel contextPtr prompt maxTokens temperature
    grammar callback (s : state W) o s' tr :
  nativeGenerate_fuel fuel contextPtr prompt maxTokens temperature grammar
                      callback s = (o, s', tr) ->
  (tr = [] /\ (o = Returned [] \/ exists f, o = Crashed f))
  \/ (exists b rc, rc <> 0 /\ tr = [EvDecode contextPtr b rc] /\
                  o = Returned [])
  \/ (exists b ex new,
        tr = EvDecode contextPtr b 0 :: new /\
        loop_trace (g_model s) contextPtr maxTokens (has_onToken callback)
                   0 ex new /\
        ((Z.to_nat maxTokens <= fuel)%nat -> ex <> ExitFuel) /\
        o = match ex with
            | ExitLoop => Returned (c_str (accumulated (g_model s) new))
            | ExitCrash f => Crashed f
            | ExitFuel => OutOfFuel
            end).
Proof.
  unfold nativeGenerate_fuel. intros Hrun.
  destruct (decide (contextPtr = 0 \/ g_model s = 0)).
  { simplify_eq. left. eauto. }
  destruct (prompt_fill 0 _ (g_batch s)) as [b1|].
  2:{ simplify_eq. left. eauto. }
  destruct (store_logits b1 (n_tokens b1 - 1) true) as [b2|].
  2:{ simplify_eq. left. eauto. }
  destruct (llama_decode contextPtr b2 _) as [rc w2].
  destruct (decide (rc <> 0)) as [Hrc|Hrc].
  { simplify_eq. right; left. eauto. }
  assert (rc = 0) as -> by lia.
  destruct (generate_loop _ _ _ _ _ fuel _) as [ex l] eqn:Hloop.
  right; right.
  pose proof (generate_loop_fuel (g_model s) contextPtr (g_sampler s)
                maxTokens (has_onToken callback) fuel
                (mk_loop [] 0 b2 w2 [EvDecode contextPtr b2 0])) as Hfuel.
  rewrite Hloop in Hfuel. simpl in Hfuel.
  destruct (generate_loop_trace _ _ _ _ _ _ _ _ _ Hloop)
    as (new & Htr & Hgen & Hshape).
  simpl in Htr, Hgen, Hshape.
  exists b2, ex, new. split_and!.
  - destruct ex; simplify_eq; by rewrite Htr.
  - done.
  - intros Hle. apply Hfuel. by rewrite Z.sub_0_r.
  - rewrite Hgen in Hrun. destruct ex; by simplify_eq.
Qed.

Lemma nativeGenerate_trace contextPtr prompt maxTokens temperature
    grammar callback (s : state W) o s' tr :
  nativeGenerate contextPtr prompt maxTokens temperature grammar
                 callback s = (o, s', tr) ->
  (tr = [] /\ (o = Returned [] \/ exists f, o = Crashed f))
  \/ (exists b rc, rc <> 0 /\ tr = [EvDecode contextPtr b rc] /\
                  o = Returned [])
  \/ (exists b ex new,
        tr = EvDecode contextPtr b 0 :: new /\
        loop_trace (g_model s) contextPtr maxTokens (has_onToken callback)
                   0 ex new /\
        ex <> ExitFuel /\
        o = match ex with
            | ExitLoop => Returned (c_str (accumulated (g_model s) new))
            | ExitCrash f => Crashed f
            | ExitFuel => OutOfFuel
            end).
Proof.
  intros Hrun. unfold nativeGenerate in Hrun.
  apply (nativeGenerate_fuel_trace _ _ _ _ temperature grammar) in Hrun.
  destruct Hrun as [?|[?|(b & ex & new & ? & ? & Hfuel & ?)]];
    [by left | by right; left |].
  right; right. exists b, ex, new. split_and!; try done. apply Hfuel. lia.
Qed.

Lemma generate_loop_more_fuel model context smpl maxTokens onTok fuel :
  forall l fuel',
    (fuel <= fuel')%nat ->
    (generate_loop model context smpl maxTokens onTok fuel l).1 <> ExitFuel ->
    generate_loop model context smpl maxTokens onTok fuel' l
    = generate_loop model context smpl maxTokens onTok fuel l.
Proof.
  induction fuel as [|fuel IH]; intros l fuel' Hle Hne; simpl in *.
  - destruct (decide (n_generated l < maxTokens)); [done|].
    destruct fuel'; simpl; by rewrite decide_False.
  - destruct fuel' as [|fuel']; [lia|]. simpl.
    destruct (decide (n_generated l < maxTokens)); [|done].
    destruct (loop_body model context smpl onTok l); [done|].
    apply IH; [lia|done].
Qed.

Lemma nativeGenerate_enough_fuel fuel contextPtr prompt maxTokens
    temperature grammar callback (s : state W) :
  (Z.to_nat maxTokens <= fuel)%nat ->
  nativeGenerate_fuel fuel contextPtr prompt maxTokens temperature grammar
                      callback s
  = nativeGenerate contextPtr prompt maxTokens temperature grammar
                   callback s.
Proof.
  intros Hle. unfold nativeGenerate, nativeGenerate_fuel.
  destruct (decide (contextPtr = 0 \/ g_model s = 0)); [done|].
  destruct (prompt_fill 0 _ (g_batch s)) as [b1|]; [|done].
  destruct (store_logits b1 (n_tokens b1 - 1) true) as [b2|]; [|done].
  destruct (llama_decode contextPtr b2 _) as [rc w2].
  destruct (decide (rc <> 0)); [done|].
  rewrite (generate_loop_more_fuel _ _ _ _ _ (Z.to_nat maxTokens) _ fuel);
    [done|done|].
  apply generate_loop_fuel. simpl. lia.
Qed.

(** ** The batches a call submits *)

(** The prompt evaluation submits whatever the batch held before the
    call, followed by the prompt's tokens at positions 0, 1, ..., with
    the flag set on the last entry.  On a batch that is empty at the
    call this is the prompt alone. *)
Lemma nativeGenerate_prompt_batch (cap : nat) contextPtr prompt maxTokens
    temperature grammar callback (s : state W) :
  let tokens := common_tokenize (g_model s) prompt true in
  let stale := batch_entries (g_batch s) in
  contextPtr <> 0 -> g_model s <> 0 ->
  batch_wf cap (g_batch s) -> 0 <= n_tokens (g_batch s) ->
  (Z.to_nat (n_tokens (g_batch s)) + length tokens <= cap)%nat ->
  (0 < length stale + length tokens)%nat ->
  head (decoded (nativeGenerate contextPtr prompt maxTokens temperature
                                grammar callback s).2)
  = Some (alter emit_logits (length stale + length tokens - 1)%nat
            (stale ++
             imap (fun j t => mk_entry t (Z.of_nat j) [0] false) tokens)).
Proof.
  intros tokens stale Hctx Hmodel Hwf Hpos Hroom Hne.
  subst stale. rewrite batch_entries_length in Hne |- *.
  unfold nativeGenerate, nativeGenerate_fuel.
  rewrite decide_False by (intros [?|?]; done).
  destruct (prompt_fill_entries cap tokens 0 (g_batch s) Hwf Hpos Hroom)
    as (b1 & Hfill & Hwf1 & Hn1 & He1).
  fold tokens. rewrite Hfill.
  destruct (store_logits_last_entry cap b1 Hwf1) as (b2 & Hstore & He2);
    [lia..|].
  rewrite Hstore.
  assert (Hentries : batch_entries b2 =
            alter emit_logits
              (Z.to_nat (n_tokens (g_batch s)) + length tokens - 1)%nat
              (batch_entries (g_batch s) ++
               imap (fun j t => mk_entry t (Z.of_nat j) [0] false) tokens)).
  { rewrite He2, He1. f_equal. lia. }
  destruct (llama_decode contextPtr b2 _) as [rc w2].
  destruct (decide (rc <> 0)); [by rewrite <- Hentries|].
  destruct (generate_loop _ _ _ _ _ _ _) as [ex l] eqn:Hloop.
  destruct (generate_loop_trace _ _ _ _ _ _ _ _ _ Hloop)
    as (new & Htr & _ & _).
  simpl in Htr. rewrite <- Hentries.
  by destruct ex; simpl; rewrite Htr.
Qed.

(** Every later evaluation of the call submits one token at position
    0. *)
Lemma nativeGenerate_next_batches (cap : nat) contextPtr prompt maxTokens
    temperature grammar callback (s : state W) o s' tr :
  batch_wf cap (g_batch s) -> (0 < cap)%nat ->
  nativeGenerate contextPtr prompt maxTokens temperature grammar callback s
    = (o, s', tr) ->
  Forall one_token_at_zero (tail (decoded tr)).
Proof.
  intros Hwf Hcap. unfold nativeGenerate, nativeGenerate_fuel.
  destruct (decide (contextPtr = 0 \/ g_model s = 0)).
  { intros; simplify_eq. constructor. }
  destruct (prompt_fill 0 _ (g_batch s)) as [b1|] eqn:Hfill.
  2:{ intros; simplify_eq. constructor. }
  destruct (store_logits b1 (n_tokens b1 - 1) true) as [b2|] eqn:Hstore.
  2:{ intros; simplify_eq. constructor. }
  destruct (llama_decode contextPtr b2 _) as [rc w2].
  destruct (decide (rc <> 0)).
  { intros; simplify_eq. constructor. }
  destruct (generate_loop _ _ _ _ _ _ _) as [ex l] eqn:Hloop.
  assert (Hwf2 : batch_wf cap b2).
  { eapply store_logits_wf; [exact Hstore|].
    eapply prompt_fill_wf; [exact Hfill|done]. }
  destruct (generate_loop_batches _ _ _ _ _ cap _
              (mk_loop [] 0 b2 w2 [EvDecode contextPtr b2 rc]) _ _
              Hwf2 Hcap Hloop)
    as (new & Htr & Hall & _).
  simpl in Htr. intros Hrun.
  assert (tr = EvDecode contextPtr b2 rc :: new) as ->
    by (destruct ex; by simplify_eq).
  exact Hall.
Qed.

(** ** nativeFreeContext *)

(** The releases of one call, in the order they are made. *)
Lemma nativeFreeContext_events (contextPtr : ptr) (s : state W) :
  (nativeFreeContext contextPtr s).2 =
    (if decide (contextPtr <> 0) then [EvContextFree contextPtr] else []) ++
    (if decide (g_sampler s <> 0) then [EvSamplerFree (g_sampler s)] else []) ++
    (if decide (0 < n_tokens (g_batch s)) then [EvBatchFree] else []).
Proof.
  unfold nativeFreeContext.
  destruct (decide (contextPtr <> 0)), (decide (g_sampler s <> 0)),
           (decide (0 < n_tokens (g_batch s))); reflexivity.
Qed.

Lemma nativeFreeContext_globals (contextPtr : ptr) (s : state W) :
  let s' := (nativeFreeContext contextPtr s).1 in
  g_model s' = g_model s /\ g_context s' = 0 /\ g_sampler s' = 0 /\
  ~ 0 < n_tokens (g_batch s').
Proof.
  unfold nativeFreeContext.
  destruct (decide (contextPtr <> 0)), (decide (g_sampler s <> 0)) as [?|Hs],
           (decide (0 < n_tokens (g_batch s))); simpl;
    split_and!; try done; try lia.
Qed.

(** With a null handle and nothing to release the call changes
    nothing. *)
Lemma nativeFreeContext_idle (s : state W) :
  g_context s = 0 -> g_sampler s = 0 -> ~ 0 < n_tokens (g_batch s) ->
  nativeFreeContext 0 s = (s, []).
Proof.
  intros Hc Hs Hb. unfold nativeFreeContext.
  rewrite decide_False by lia. rewrite decide_False by lia.
  rewrite decide_False by done.
  destruct s; simpl in *. by subst.
Qed.

(** Called again with the same handle, the only thing the call does is
    free the context a second time. *)
Lemma nativeFreeContext_again (contextPtr : ptr) (s : state W) :
  (nativeFreeContext contextPtr (nativeFreeContext contextPtr s).1).2 =
    if decide (contextPtr <> 0) then [EvContextFree contextPtr] else [].
Proof.
  destruct (nativeFreeContext_globals contextPtr s) as (_ & _ & Hs & Hb).
  rewrite nativeFreeContext_events, Hs.
  rewrite (decide_False (P := 0 <> 0)) by (intros Hn; by apply Hn).
  rewrite (decide_False (P := 0 < _)) by done.
  by rewrite !app_nil_r.
Qed.

(** ** The claims about the generation loop *)

(** C4 (as the code has it): [nativeGenerate] never reads its
    [grammar] argument.  Two calls that differ only in the grammar
    make the same engine calls, deliver the same fragments and return
    the same text: no token is sampled under a grammar supplied to
    the call. *)
Theorem C4_grammar_argument_is_ignored contextPtr prompt maxTokens
    temperature (grammar1 grammar2 : option (list byte)) callback
    (s : state W) :
  nativeGenerate contextPtr prompt maxTokens temperature grammar1 callback s
  = nativeGenerate contextPtr prompt maxTokens temperature grammar2 callback s.
Proof. reflexivity. Qed.

(** When an evaluation fails in the loop, after at least one token
    was sampled, nothing follows it: the call ends, and the bytes it
    hands to [NewStringUTF] are the text accumulated so far read as a
    C string, that is, up to its first NUL byte.  Only when the
    accumulated text holds no NUL byte are these all its bytes. *)
Lemma failed_decode_hands_back_c_string contextPtr prompt
    maxTokens temperature grammar callback (s : state W) o s'
    t1 c b rc t2 :
  nativeGenerate contextPtr prompt maxTokens temperature grammar callback s
    = (o, s', t1 ++ EvDecode c b rc :: t2) ->
  rc <> 0 ->
  sampled t1 <> [] ->
  t2 = [] /\
  o = Returned (c_str (accumulated (g_model s) t1)) /\
  (x00 ∉ accumulated (g_model s) t1 ->
   o = Returned (accumulated (g_model s) t1)).
Proof.
  intros Hrun Hrc Hsampled.
  assert (Hgoal : t2 = [] /\
                  o = Returned (c_str (accumulated (g_model s) t1))).
  { apply nativeGenerate_trace in Hrun.
    destruct Hrun as [[Htr _]|[(b0 & rc0 & _ & Htr & _)
                              |(b0 & ex & new & Htr & Hshape & _ & Ho)]].
    - by destruct t1.
    - destruct t1 as [|? [|? t1]]; by simplify_eq/=.
    - destruct t1 as [|e t1]; simplify_eq/=.
      destruct (loop_trace_failed_decode _ _ _ _ _ _ _ Hshape
                  _ _ _ _ _ eq_refl Hrc) as [-> ->].
      split; [done|]. f_equal. f_equal.
      rewrite accumulated_app. unfold accumulated at 2. simpl.
      by rewrite app_nil_r. }
  destruct Hgoal as [-> ->]. split_and!; [done..|].
  intros Hnul. by rewrite c_str_no_nul.
Qed.

(** When the token sampled at step [k] is the end-of-sequence token,
    [k] is below [maxTokens], the only thing that follows the sample
    is the delivery of that token's fragment, and the bytes the call
    hands to [NewStringUTF] are the text accumulated through step [k],
    fragment of the end-of-sequence token included, read as a C
    string: up to its first NUL byte. *)
Lemma eos_ends_loop_after_delivery contextPtr prompt maxTokens
    temperature grammar callback (s : state W) o s' t1 k idx tok t2 :
  nativeGenerate contextPtr prompt maxTokens temperature grammar callback s
    = (o, s', t1 ++ EvSample k idx tok :: t2) ->
  tok = llama_token_eos (g_model s) ->
  let text := accumulated (g_model s) (t1 ++ [EvSample k idx tok]) in
  0 <= k < maxTokens /\
  Z.of_nat (length (sampled t1)) = k /\
  t2 = delivery (g_model s) (has_onToken callback) k tok /\
  o = Returned (c_str text) /\
  (x00 ∉ text ->
   o = Returned text /\
   (has_onToken callback = true -> fragment (g_model s) tok <> [] ->
    t2 = [EvOnToken k (fragment (g_model s) tok)])).
Proof.
  intros Hrun Heos text.
  apply nativeGenerate_trace in Hrun.
  destruct Hrun as [[Htr _]|[(b0 & rc0 & _ & Htr & _)
                            |(b0 & ex & new & Htr & Hshape & _ & Ho)]].
  - by destruct t1.
  - destruct t1 as [|? [|? t1]]; by simplify_eq/=.
  - destruct t1 as [|e t1]; simplify_eq/=.
    destruct (loop_trace_eos _ _ _ _ _ _ _ Hshape
                _ _ _ _ _ eq_refl eq_refl) as (-> & -> & Hk & Hlt).
    assert (Htext : accumulated (g_model s)
              (t1 ++ EvSample k idx (llama_token_eos (g_model s)) ::
               delivery (g_model s) (has_onToken callback) k
                        (llama_token_eos (g_model s))) = text).
    { subst text.
      change (EvDecode contextPtr b0 0 :: ?t)
        with ([EvDecode contextPtr b0 0] ++ t).
      change (EvSample ?a ?b ?c :: ?t) with ([EvSample a b c] ++ t).
      rewrite !accumulated_app, accumulated_delivery.
      change (accumulated (g_model s) []) with (@nil byte).
      change (accumulated (g_model s) [EvDecode contextPtr b0 0])
        with (@nil byte).
      by rewrite !app_nil_r. }
    rewrite Htext.
    assert (Hlen : length (sampled (EvDecode contextPtr b0 0 :: t1))
                   = length (sampled t1)) by done.
    split_and!; try done; try lia.
    intros Hnul. split; [by rewrite c_str_no_nul|].
    intros Hon Hfrag. unfold delivery. rewrite Hon.
    rewrite decide_False by done. do 2 f_equal.
    apply c_str_no_nul. intros Hin. apply Hnul. subst text.
    change (EvDecode contextPtr b0 0 :: ?t)
      with ([EvDecode contextPtr b0 0] ++ t).
    rewrite !accumulated_app. apply elem_of_app. right.
    apply elem_of_app. right.
    unfold accumulated. simpl. by rewrite app_nil_r.
Qed.

(** With a callback whose [onToken] method was found, [NewStringUTF]
    is called for the sink in strictly increasing step order, once
    for every step whose fragment is non-empty, on that fragment read
    as a C string.  The bytes handed over for the sink concatenate to
    the bytes handed over for the result only when no sampled token's
    fragment holds a NUL byte. *)
Lemma fragments_handed_over_in_order contextPtr prompt maxTokens
    temperature grammar callback (s : state W) o s' tr :
  nativeGenerate contextPtr prompt maxTokens temperature grammar callback s
    = (o, s', tr) ->
  has_onToken callback = true ->
  let fragments := fragment (g_model s) <$> sampled tr in
  StronglySorted Z.lt (delivery_steps tr) /\
  delivered tr = c_str <$> filter (fun f => f <> []) fragments /\
  ((forall tok, tok ∈ sampled tr -> x00 ∉ fragment (g_model s) tok) ->
   delivered tr = filter (fun f => f <> []) fragments /\
   forall text, o = Returned text -> concat (delivered tr) = text).
Proof.
  intros Hrun Hon fragments.
  apply nativeGenerate_trace in Hrun.
  destruct Hrun as [[-> Ho]|[(b0 & rc0 & _ & -> & ->)
                            |(b0 & ex & new & -> & Hshape & _ & Ho)]].
  - split_and!; [constructor|done|]. intros _. split; [done|].
    intros text ->. destruct Ho as [?|[? ?]]; by simplify_eq.
  - split_and!; [constructor|done|]. intros _. split; [done|].
    intros text ?. by simplify_eq.
  - destruct (loop_trace_steps _ _ _ _ _ _ _ Hshape) as [_ Hsorted].
    pose proof (loop_trace_delivered _ _ _ _ _ _ _ Hshape) as Hdel.
    rewrite Hon in Hdel.
    change (delivery_steps (EvDecode contextPtr b0 0 :: new))
      with (delivery_steps new).
    change (delivered (EvDecode contextPtr b0 0 :: new))
      with (delivered new).
    assert (fragments = fragment (g_model s) <$> sampled new) as -> by done.
    split_and!; [done..|].
    intros Hnul.
    assert (Hfree : forall f,
              f ∈ fragment (g_model s) <$> sampled new -> x00 ∉ f).
    { intros f (tok & -> & Htok)%list_elem_of_fmap. by apply Hnul. }
    assert (Hdel' : delivered new
              = filter (fun f => f <> []) (fragment (g_model s) <$> sampled new)).
    { rewrite Hdel. apply c_str_fragments_nul_free.
      intros f [_ Hf]%list_elem_of_filter. by apply Hfree. }
    split; [done|].
    intros text ->. rewrite Hdel', concat_nonempty.
    destruct ex; simplify_eq.
    rewrite c_str_no_nul; [done|]. by apply concat_nul_free.
Qed.

(** C9: for every [maxTokens], the loop of [nativeGenerate] ends by
    its own condition (the fuel [maxTokens] is never exhausted, and
    more fuel changes nothing), it samples at most [maxTokens] times,
    once per iteration, and it delivers at most [maxTokens] fragments
    to the sink. *)
Theorem C9_loop_runs_at_most_maxTokens_times contextPtr prompt maxTokens
    temperature grammar callback (s : state W) :
  let r := nativeGenerate contextPtr prompt maxTokens temperature grammar
                          callback s in
  r.1.1 <> OutOfFuel /\
  (forall fuel, (Z.to_nat maxTokens <= fuel)%nat ->
     nativeGenerate_fuel fuel contextPtr prompt maxTokens temperature
                         grammar callback s = r) /\
  Z.of_nat (length (sampled r.2)) <= Z.max 0 maxTokens /\
  Z.of_nat (length (delivered r.2)) <= Z.max 0 maxTokens.
Proof.
  intros r.
  split; [|split; [intros fuel Hle; by apply nativeGenerate_enough_fuel|]].
  - destruct r as [[o s'] tr] eqn:Hr. subst r. simpl.
    apply nativeGenerate_trace in Hr.
    destruct Hr as [[_ [->|[f ->]]]|[(b0 & rc0 & _ & _ & ->)
                                    |(b0 & ex & new & _ & _ & Hex & ->)]];
      try done.
    by destruct ex.
  - destruct r as [[o s'] tr] eqn:Hr. subst r. cbn [snd].
    apply nativeGenerate_trace in Hr.
    destruct Hr as [[-> _]|[(b0 & rc0 & _ & -> & _)
                           |(b0 & ex & new & -> & Hshape & _ & _)]];
      [simpl; lia..|].
    pose proof (loop_trace_rounds _ _ _ _ _ _ _ Hshape) as Hrounds.
    pose proof (loop_trace_deliveries _ _ _ _ _ _ _ Hshape) as Hdel.
    change (sampled (EvDecode contextPtr b0 0 :: new)) with (sampled new).
    change (delivered (EvDecode contextPtr b0 0 :: new)) with (delivered new).
    lia.
Qed.

(** C10: [nativeGenerate] never reads its [temperature] argument.
    Two calls that differ only in the temperature make the same
    engine calls, deliver the same fragments in the same order and
    return the same text; the temperature that counts is the one
    [nativeInitContext] gave the sampler. *)
Theorem C10_temperature_argument_is_not_read contextPtr prompt maxTokens
    (temperature1 temperature2 : jfloat) grammar callback (s : state W) :
  nativeGenerate contextPtr prompt maxTokens temperature1 grammar callback s
  = nativeGenerate contextPtr prompt maxTokens temperature2 grammar callback s.
Proof. reflexivity. Qed.

End BridgeFacts.

(** ** Runs on the scripted engine *)

Section Runs.
Import Scripted.

Let temperature := DEFAULT_TEMPERATURE.

(** C1 (the code at a failing input): prompt "hi" fills positions 0
    and 1; the sampler then yields "A" and "B".  Each is evaluated in
    a batch of its own with emit-logits set, but at position 0, the
    fill count of the batch just cleared, not at positions 2 and 3. *)
Theorem C1_next_token_goes_to_position_zero :
  let r := nativeGenerate 100 hi 2 temperature None sink
                          (session (mk_script [65; 66] [])) in
  r.1.1 = Returned [x41; x42] /\
  decoded r.2 =
    [ [mk_entry 104 0 [0] false; mk_entry 105 1 [0] true];
      [mk_entry 65 0 [0] true];
      [mk_entry 66 0 [0] true] ].
Proof. vm_compute. repeat split. Qed.

(** C2 (the code at a failing input): the first request leaves the
    token "A" in the batch; the prompt fill of the next request,
    prompt "yo", adds to it without clearing, so the batch evaluated
    holds three entries, the stale one first and still flagged. *)
Theorem C2_second_call_keeps_stale_entries :
  let s1 := used_session (mk_script [65; 66] []) in
  let r := nativeGenerate 100 yo 0 temperature None sink s1 in
  batch_entries (g_batch s1) = [mk_entry 65 0 [0] true] /\
  decoded r.2 =
    [ [mk_entry 65 0 [0] true;
       mk_entry 121 0 [0] false; mk_entry 111 1 [0] true] ].
Proof. vm_compute. repeat split. Qed.

(** C3 (the code at a failing input): nothing guards the empty token
    sequence.  On a fresh session the store [logits[n_tokens - 1]]
    goes to index -1, outside the array.  On a session that served a
    request the store lands on the stale entry, the stale batch is
    evaluated, and the loop generates text. *)
Theorem C3_empty_prompt_is_not_guarded :
  let fresh := nativeGenerate 100 [] 5 temperature None sink
                              (session (mk_script [65] [])) in
  let used := nativeGenerate 100 [] 5 temperature None sink
                             (used_session (mk_script [65; 66; 256] [])) in
  tokenize 1 [] true = [] /\
  fresh.1.1 = Crashed OutOfBounds /\
  decode_codes used.2 = [0; 0] /\
  decoded used.2 = [[mk_entry 65 0 [0] true]; [mk_entry 66 0 [0] true]] /\
  used.1.1 = Returned [x42; x3c; x2f; x73; x3e].
Proof. vm_compute. repeat split. Qed.

(** C5 (the code at a failing input): the first call on a session
    releases context, sampler and batch, in that order; the second
    call with the same handle frees the context again.  On a session
    that never generated, the batch holds no token and is not
    released. *)
Theorem C5_second_call_frees_the_context_again :
  let s1 := used_session (mk_script [65] []) in
  let first := nativeFreeContext 100 s1 in
  let second := nativeFreeContext 100 first.1 in
  g_context s1 = 100 /\
  first.2 = [EvContextFree 100; EvSamplerFree 200; EvBatchFree] /\
  g_context first.1 = 0 /\
  second.2 = [EvContextFree 100] /\
  (nativeFreeContext 100 (session (mk_script [] []))).2
    = [EvContextFree 100; EvSamplerFree 200].
Proof. vm_compute. repeat split. Qed.

(** C6 (the code at a failing input): the sampler yields "A", the
    byte 0 and "B", and the evaluation after "B" fails with code 7.
    Line 248 has appended each fragment with its length, so the text
    accumulated is the three bytes "A", NUL, "B"; line 278 hands
    [generated.c_str()] to [NewStringUTF], which reads up to the first
    NUL: the call returns "A".  "B" was produced and is discarded.
    (Every byte handed over is ASCII.) *)
Theorem C6_nul_byte_cuts_the_returned_text :
  let r := nativeGenerate 100 hi 5 temperature None sink
                          (session (mk_script [65; 0; 66] [0; 0; 0; 7])) in
  decode_codes r.2 = [0; 0; 0; 7] /\
  sampled r.2 = [65; 0; 66] /\
  fragment 1 <$> sampled r.2 = [[x41]; [x00]; [x42]] /\
  accumulated 1 r.2 = [x41; x00; x42] /\
  r.1.1 = Returned [x41] /\
  r.1.1 <> Returned (accumulated 1 r.2).
Proof. vm_compute. repeat split. discriminate. Qed.

(** C7 (the code at a failing input): the sampler yields the byte 0
    and then the end-of-sequence token, whose text is "</s>".  The
    loop ends at step 1, after "</s>" went to the sink; the text
    accumulated through step 1 is NUL, "</s>", five bytes, and the
    call returns the empty string, what [NewStringUTF] reads of
    [generated.c_str()] before the first NUL. *)
Theorem C7_nul_byte_empties_the_returned_text :
  let r := nativeGenerate 100 hi 5 temperature None sink
                          (session (mk_script [0; 256] [])) in
  llama_token_eos 1 = 256 /\
  sampled r.2 = [0; 256] /\
  drop 5 r.2 = [EvOnToken 1 [x3c; x2f; x73; x3e]] /\
  accumulated 1 r.2 = [x00; x3c; x2f; x73; x3e] /\
  r.1.1 = Returned [] /\
  r.1.1 <> Returned (accumulated 1 r.2).
Proof. vm_compute. repeat split. discriminate. Qed.

(** C8 (the code at a failing input): the sampler yields the byte 0
    and then "A".  The fragment of step 0 is one byte long, so line
    252 calls back, with [NewStringUTF(token_str)]: the sink receives
    the empty string at step 0 and "A" at step 1.  The text
    accumulated is NUL, "A", and line 278 returns the empty string:
    the fragments delivered concatenate to "A", the text returned is
    empty.  (Every byte handed over is ASCII.) *)
Theorem C8_delivered_fragments_differ_from_returned_text :
  let r := nativeGenerate 100 hi 2 temperature None sink
                          (session (mk_script [0; 65] [])) in
  has_onToken sink = true /\
  fragment 1 <$> sampled r.2 = [[x00]; [x41]] /\
  delivery_steps r.2 = [0; 1] /\
  delivered r.2 = [[]; [x41]] /\
  concat (delivered r.2) = [x41] /\
  r.1.1 = Returned [] /\
  r.1.1 <> Returned (concat (delivered r.2)).
Proof. vm_compute. repeat split. discriminate. Qed.

End Runs.

(** * More of the bridge *)

(** ** Decimal output *)

Lemma digit_value_digit (d : N) : (d < 10)%N -> digit_value (digit d) = d.
Proof.
  intros Hd.
  assert (d = 0 \/ d = 1 \/ d = 2 \/ d = 3 \/ d = 4 \/ d = 5 \/ d = 6 \/
          d = 7 \/ d = 8 \/ d = 9)%N as Hcases by lia.
  repeat (destruct Hcases as [->|Hcases]; [reflexivity|]).
  by subst.
Qed.

Lemma digit_is_digit (d : N) : is_digit (digit d).
Proof.
  unfold is_digit, digit.
  destruct d as [|[[[[]|[]|]|[[]|[]|]|]|[[[]|[]|]|[[]|[]|]|]|]]; simpl; lia.
Qed.

Lemma is_digit_not_nul (c : byte) : is_digit c -> c <> x00.
Proof. intros Hc ->. unfold is_digit in Hc. simpl in Hc. lia. Qed.

Lemma decimal_rev_value (fuel : nat) :
  forall n : N,
    (n < 2 ^ N.of_nat fuel)%N ->
    decimal_value_rev (decimal_rev fuel n) = n.
Proof.
  induction fuel as [|fuel IH]; intros n Hn.
  - simpl in *. lia.
  - cbn [decimal_rev decimal_value_rev foldr].
    rewrite digit_value_digit by (apply N.mod_lt; lia).
    pose proof (N.div_mod n 10 ltac:(lia)) as Hdiv.
    destruct (N.eqb_spec (n / 10) 0%N) as [Hz|Hz].
    + simpl. lia.
    + fold (decimal_value_rev (decimal_rev fuel (n / 10))).
      rewrite IH; [lia|].
      apply N.Div0.div_lt_upper_bound.
      rewrite Nat2N.inj_succ, N.pow_succ_r' in Hn. lia.
Qed.

(** Reading the digits back gives the number. *)
Lemma decimal_round_trip (n : N) : decimal_value (decimal n) = n.
Proof.
  unfold decimal_value, decimal. rewrite rev_involutive.
  apply decimal_rev_value.
  rewrite Nat2N.inj_succ, N2Nat.id.
  destruct (N.eq_dec n 0%N) as [->|Hn]; [reflexivity|].
  apply N.log2_spec. lia.
Qed.

Lemma decimal_rev_length (k : nat) :
  forall (fuel : nat) (n : N),
    (0 < k)%nat -> (n < 10 ^ N.of_nat k)%N ->
    (length (decimal_rev fuel n) <= k)%nat.
Proof.
  induction k as [|k IH]; intros fuel n Hk Hn; [lia|].
  destruct fuel as [|fuel]; simpl; [lia|].
  destruct (N.eqb_spec (n / 10) 0%N) as [Hz|Hz]; simpl; [lia|].
  rewrite Nat2N.inj_succ, N.pow_succ_r' in Hn.
  assert (n / 10 < 10 ^ N.of_nat k)%N as Hdiv
    by (apply N.Div0.div_lt_upper_bound; lia).
  destruct k as [|k].
  - change (10 ^ N.of_nat 0)%N with 1%N in Hdiv. exfalso. apply Hz. by apply N.lt_1_r.
  - specialize (IH fuel (n / 10)%N ltac:(lia) Hdiv). lia.
Qed.

Lemma decimal_rev_digits (fuel : nat) :
  forall n : N, Forall is_digit (decimal_rev fuel n).
Proof.
  induction fuel as [|fuel IH]; intros n; simpl; [constructor|].
  constructor; [apply digit_is_digit|].
  destruct (n / 10 =? 0)%N; [constructor|apply IH].
Qed.

Lemma decimal_digits (n : N) : Forall is_digit (decimal n).
Proof.
  unfold decimal. apply Forall_rev, decimal_rev_digits.
Qed.

(** A [size_t] has at most twenty digits. *)
Lemma decimal_length_size_t (n : N) :
  (n < 2 ^ 64)%N -> (length (decimal n) <= 20)%nat.
Proof.
  intros Hn. unfold decimal. rewrite length_rev.
  apply decimal_rev_length; [lia|].
  eapply N.lt_trans; [exact Hn|]. reflexivity.
Qed.

(** ** More about traces *)

Lemma c_str_length (l : list byte) : (length (c_str l) <= length l)%nat.
Proof.
  induction l as [|c l IH]; simpl; [lia|].
  destruct (Byte.eqb c x00); simpl; lia.
Qed.

Lemma decode_codes_app (t1 t2 : list event) :
  decode_codes (t1 ++ t2) = decode_codes t1 ++ decode_codes t2.
Proof. apply omap_app. Qed.

Section GenerateFacts.
Context {W : Type} `{InferenceEngine W}.

Lemma accumulated_length (model : ptr) (tr : list event) :
  (length (accumulated model tr) <= 255 * length (sampled tr))%nat.
Proof.
  unfold accumulated.
  induction (sampled tr) as [|tok toks IH]; [simpl; lia|].
  rewrite fmap_cons. cbn [concat length]. rewrite length_app.
  pose proof (fragment_length model tok). lia.
Qed.

Section LoopMore.
Variables (model context smpl : ptr) (maxTokens : Z) (onTok : bool).

Lemma decode_codes_delivery n tok :
  decode_codes (delivery model onTok n tok) = [].
Proof.
  unfold delivery. destruct onTok; [|done].
  by destruct (decide (fragment model tok = [])).
Qed.

Lemma decodes_on_delivery c n tok :
  decodes_on c (delivery model onTok n tok).
Proof.
  unfold decodes_on, delivery. destruct onTok; [|constructor].
  destruct (decide (fragment model tok = [])); repeat constructor.
Qed.

(** In the loop every evaluation but the last one succeeded, no round
    evaluates twice, and every round but the first follows a
    successful evaluation. *)
Lemma loop_trace_codes n ex tr :
  loop_trace model context maxTokens onTok n ex tr ->
  exists k last,
    decode_codes tr = replicate k 0 ++ last /\
    (last = [] \/ exists rc, rc <> 0 /\ last = [rc]) /\
    (k + length last <= length (sampled tr))%nat /\
    (length (sampled tr) <= S k)%nat.
Proof.
  induction 1 as [n Hn|n Hn|n idx tok Hn He|n idx tok b rc Hn He Hrc
                 |n idx tok Hn He|n idx tok b ex rest Hn He Hrest IH].
  1-2: exists 0%nat, []; simpl; split_and!; first [done | by left | lia].
  all: change (EvSample n idx tok :: ?t) with ([EvSample n idx tok] ++ t).
  all: try change (EvDecode context b ?rc :: ?t)
             with ([EvDecode context b rc] ++ t).
  all: rewrite ?decode_codes_app, ?sampled_app, ?decode_codes_delivery,
         ?sampled_delivery; simpl.
  - exists 0%nat, []. simpl. split_and!; first [done | by left | lia].
  - exists 0%nat, [rc]. simpl. split_and!; try lia; try done.
    right. by exists rc.
  - exists 0%nat, []. simpl. split_and!; first [done | by left | lia].
  - destruct IH as (k & last & -> & Hlast & Hk & Hs).
    exists (S k), last. simpl. split_and!; (done || lia).
Qed.

(** The loop evaluates on the context it was given. *)
Lemma loop_trace_contexts n ex tr :
  loop_trace model context maxTokens onTok n ex tr ->
  decodes_on context tr.
Proof.
  unfold decodes_on.
  induction 1 as [n Hn|n Hn|n idx tok Hn He|n idx tok b rc Hn He Hrc
                 |n idx tok Hn He|n idx tok b ex rest Hn He Hrest IH];
    try constructor; try done;
    rewrite ?Forall_app; repeat split;
    try apply decodes_on_delivery; repeat constructor; done.
Qed.

(** No fragment handed to the sink holds a NUL byte or more than 255
    bytes. *)
Lemma loop_trace_fragments n ex tr :
  loop_trace model context maxTokens onTok n ex tr ->
  Forall (fun f => (x00 ∉ f) /\ (length f <= 255)%nat) (delivered tr).
Proof.
  assert (Hd : forall k tok,
    Forall (fun f => (x00 ∉ f) /\ (length f <= 255)%nat)
           (delivered (delivery model onTok k tok))).
  { intros k tok.
    destruct (delivery_cases model onTok k tok) as [[-> _]|(-> & _)];
      [constructor|].
    constructor; [|constructor]. split; [apply c_str_nul_free|].
    etrans; [apply c_str_length|apply fragment_length]. }
  induction 1 as [n Hn|n Hn|n idx tok Hn He|n idx tok b rc Hn He Hrc
                 |n idx tok Hn He|n idx tok b ex rest Hn He Hrest IH];
    try constructor.
  all: change (EvSample n idx tok :: ?t) with ([EvSample n idx tok] ++ t).
  all: try change (EvDecode context b ?rc :: ?t)
             with ([EvDecode context b rc] ++ t).
  all: rewrite ?delivered_app; simpl; rewrite ?Forall_app; repeat split;
       try apply Hd; try done; constructor.
Qed.

(** The loop keeps the arrays of the batch at their capacity. *)
Lemma generate_loop_wf (cap : nat) (fuel : nat) :
  forall l ex l',
    batch_wf cap (l_batch l) ->
    generate_loop model context smpl maxTokens onTok fuel l = (ex, l') ->
    batch_wf cap (l_batch l').
Proof.
  induction fuel as [|fuel IH]; intros l ex l' Hwf Hrun; simpl in Hrun.
  - destruct (decide (n_generated l < maxTokens)); by simplify_eq.
  - destruct (decide (n_generated l < maxTokens)); [|by simplify_eq].
    assert (Hclear : batch_wf cap (common_batch_clear (l_batch l))).
    { by destruct Hwf as (? & ? & ? & ? & ?). }
    destruct (loop_body_trace model context smpl onTok l)
      as (idx & tok & tail & l1 & _ & _ & _ & Hcase).
    destruct Hcase as [(Hb & _ & b & _ & Hadd & Hbatch)
                      |[(Hb & _ & _ & Hbatch)
                      |[(Hb & _ & b & rc & _ & _ & Hadd & Hbatch)
                      |(Hb & _ & _ & Hbatch)]]];
      rewrite Hb in Hrun.
    + eapply IH; [|exact Hrun]. rewrite Hbatch.
      by eapply common_batch_add_wf.
    + simplify_eq. by rewrite Hbatch.
    + simplify_eq. by eapply common_batch_add_wf.
    + simplify_eq. by rewrite Hbatch.
Qed.

End LoopMore.

(** ** The logits the sampler reads *)

Lemma common_batch_add_logits (cap : nat) (b b' : llama_batch) id p seq_ids
    lg :
  batch_wf cap b ->
  common_batch_add b id p seq_ids lg = Some b' ->
  0 <= n_tokens b /\ n_tokens b' = n_tokens b + 1 /\
  logits b' !! Z.to_nat (n_tokens b) = Some lg.
Proof.
  intros (Ht & Hp & Hn & Hs & Hl). unfold common_batch_add.
  destruct (decide (0 <= n_tokens b)); [|done].
  destruct (seq_id b !! Z.to_nat (n_tokens b)) as [row|] eqn:Hrow; [|done].
  intros; simplify_eq. simpl. split_and!; [done..|].
  apply list_lookup_insert_eq.
  apply lookup_lt_Some in Hrow. lia.
Qed.

Lemma common_batch_add_count (b b' : llama_batch) id p seq_ids lg :
  common_batch_add b id p seq_ids lg = Some b' ->
  0 <= n_tokens b /\ n_tokens b' = n_tokens b + 1.
Proof.
  unfold common_batch_add.
  destruct (decide (0 <= n_tokens b)); [|done].
  destruct (seq_id b !! Z.to_nat (n_tokens b)); [|done].
  intros; by simplify_eq.
Qed.

Lemma store_logits_flag (b b' : llama_batch) (i : Z) :
  store_logits b i true = Some b' ->
  0 <= i /\ n_tokens b' = n_tokens b /\
  logits b' !! Z.to_nat i = Some true.
Proof.
  unfold store_logits.
  destruct (decide (0 <= i < Z.of_nat (length (logits b)))); [|done].
  intros; simplify_eq. simpl. split_and!; [lia|done|].
  apply list_lookup_insert_eq. lia.
Qed.

Section LoopReads.
Variables (model context smpl : ptr) (maxTokens : Z) (onTok : bool).

(** The sampler is asked for the logits of the batch's last entry. *)
Lemma loop_body_index (l l' : loop_state) :
  (loop_body model context smpl onTok l = inr l' \/
   exists ex, loop_body model context smpl onTok l = inl (ex, l')) ->
  exists tok rest,
    l_trace l' = l_trace l ++
      EvSample (n_generated l) (n_tokens (l_batch l) - 1) tok :: rest.
Proof.
  unfold loop_body.
  destruct (common_sampler_sample smpl context (n_tokens (l_batch l) - 1)
              (l_world l)) as [tok w1].
  destruct (llama_token_to_piece model tok 255) as [n_chars written].
  intros Hb. exists tok.
  destruct (decide (0 < n_chars)), onTok,
           (decide (tok = llama_token_eos model));
    try destruct (common_batch_add _ tok _ [0] true) as [b1|];
    try destruct (llama_decode context b1 _) as [rc w3];
    try destruct (decide (rc <> 0));
    destruct Hb as [Hb|[ex Hb]]; simplify_eq; simpl;
    rewrite <- ?app_assoc; simpl; eexists; reflexivity.
Qed.

Lemma sample_reads_delivery cur n tok rest :
  sample_reads cur (delivery model onTok n tok ++ rest)
  = sample_reads cur rest.
Proof.
  by destruct (delivery_cases model onTok n tok) as [[-> _]|(-> & _)].
Qed.

Lemma generate_loop_reads (cap : nat) (fuel : nat) :
  forall l ex l',
    batch_wf cap (l_batch l) ->
    reads_last_logits (l_batch l, n_tokens (l_batch l) - 1) ->
    generate_loop model context smpl maxTokens onTok fuel l = (ex, l') ->
    exists tr,
      l_trace l' = l_trace l ++ tr /\
      Forall reads_last_logits (sample_reads (l_batch l) tr).
Proof.
  induction fuel as [|fuel IH]; intros l ex l' Hwf Hgood Hrun;
    simpl in Hrun.
  - destruct (decide (n_generated l < maxTokens)); simplify_eq;
      exists []; rewrite app_nil_r; split; (done || constructor).
  - destruct (decide (n_generated l < maxTokens)) as [Hlt|Hge].
    2:{ simplify_eq. exists []. rewrite app_nil_r.
        split; (done || constructor). }
    assert (Hclear : batch_wf cap (common_batch_clear (l_batch l))).
    { by destruct Hwf as (? & ? & ? & ? & ?). }
    destruct (loop_body_trace model context smpl onTok l)
      as (idx & tok & tail & l1 & _ & _ & Htr & Hcase).
    assert (Hidx : idx = n_tokens (l_batch l) - 1).
    { destruct (loop_body_index l l1) as (tok' & rest' & Htr').
      - destruct Hcase as [(Hb & _)|[(Hb & _)|[(Hb & _)|(Hb & _)]]];
          eauto.
      - rewrite Htr in Htr'. apply app_inv_head in Htr'.
        by injection Htr'. }
    subst idx.
    destruct Hcase as [(Hb & _ & b & -> & Hadd & Hbatch)
                      |[(Hb & _ & -> & _)
                      |[(Hb & _ & b & rc & _ & -> & _)
                      |(Hb & _ & -> & _)]]];
      rewrite Hb in Hrun.
    + destruct (common_batch_add_logits cap _ _ _ _ _ _ Hclear Hadd)
        as (_ & Hn & Hflag). simpl in Hn, Hflag.
      destruct (IH l1 ex l') as (rest & Htr' & Hall); [| |done|].
      { rewrite Hbatch. by eapply common_batch_add_wf. }
      { unfold reads_last_logits. simpl. rewrite Hbatch, Hn.
        replace (0 + 1 - 1) with 0 by lia. by split_and!. }
      eexists. split.
      { rewrite Htr', Htr, <- app_assoc. simpl.
        by rewrite <- app_assoc. }
      simpl. rewrite sample_reads_delivery. simpl.
      constructor; [done|]. by rewrite <- Hbatch.
    + simplify_eq. eexists. split; [exact Htr|].
      simpl. rewrite sample_reads_delivery. simpl.
      constructor; [done|constructor].
    + simplify_eq. eexists. split; [exact Htr|].
      simpl. rewrite sample_reads_delivery. simpl.
      constructor; [done|constructor].
    + simplify_eq. eexists. split; [exact Htr|].
      simpl. rewrite sample_reads_delivery. simpl.
      constructor; [done|constructor].
Qed.

(** A round that goes on, or ends the loop, leaves an entry in the
    batch. *)
Lemma generate_loop_pending (fuel : nat) :
  forall l l',
    0 < n_tokens (l_batch l) ->
    generate_loop model context smpl maxTokens onTok fuel l
      = (ExitLoop, l') ->
    0 < n_tokens (l_batch l').
Proof.
  induction fuel as [|fuel IH]; intros l l' Hpos Hrun; simpl in Hrun.
  - destruct (decide (n_generated l < maxTokens)); by simplify_eq.
  - destruct (decide (n_generated l < maxTokens)); [|by simplify_eq].
    destruct (loop_body_trace model context smpl onTok l)
      as (idx & tok & tail & l1 & _ & _ & _ & Hcase).
    destruct Hcase as [(Hb & _ & b & _ & Hadd & Hbatch)
                      |[(Hb & _ & _ & Hbatch)
                      |[(Hb & _ & b & rc & _ & _ & Hadd & Hbatch)
                      |(Hb & _ & _ & Hbatch)]]];
      rewrite Hb in Hrun.
    + apply common_batch_add_count in Hadd as [_ Hn]. simpl in Hn.
      eapply (IH l1); [|exact Hrun]. rewrite Hbatch. lia.
    + simplify_eq. by rewrite Hbatch.
    + apply common_batch_add_count in Hadd as [_ Hn]. simpl in Hn.
      simplify_eq. lia.
    + simplify_eq.
Qed.

End LoopReads.

(** ** Whole calls of nativeGenerate *)

Lemma nativeGenerate_no_batch contextPtr prompt maxTokens temperature
    grammar callback (s : state W) :
  contextPtr <> 0 -> g_model s <> 0 -> g_batch s = batch_zero ->
  exists f,
    (nativeGenerate contextPtr prompt maxTokens temperature grammar
                    callback s).1.1 = Crashed f /\
    (nativeGenerate contextPtr prompt maxTokens temperature grammar
                    callback s).2 = [].
Proof.
  intros Hctx Hmodel Hbatch. unfold nativeGenerate, nativeGenerate_fuel.
  rewrite decide_False by (intros [?|?]; done).
  rewrite Hbatch.
  destruct (common_tokenize (g_model s) prompt true) as [|t rest]; simpl.
  - by exists OutOfBounds.
  - by exists BatchOverflow.
Qed.

(** The prompt loop counts up from the entries the batch holds, and
    cannot go past the capacity. *)
Lemma prompt_fill_count (cap : nat) (tokens : list llama_token) :
  forall i b b',
    batch_wf cap b -> 0 <= n_tokens b <= Z.of_nat cap ->
    prompt_fill i tokens b = Some b' ->
    n_tokens b' = n_tokens b + Z.of_nat (length tokens) /\
    n_tokens b' <= Z.of_nat cap.
Proof.
  induction tokens as [|t rest IH]; intros i b b' Hwf Hn Hfill;
    simpl in Hfill.
  - simplify_eq. simpl. lia.
  - destruct (common_batch_add b t i [0] false) as [b1|] eqn:Hadd; [|done].
    pose proof (common_batch_add_wf cap _ _ _ _ _ _ Hadd Hwf) as Hwf1.
    assert (Hn1 : n_tokens b1 = n_tokens b + 1 /\
                  n_tokens b1 <= Z.of_nat cap).
    { destruct Hwf as (_ & _ & _ & Hs & _). revert Hadd.
      unfold common_batch_add.
      destruct (decide (0 <= n_tokens b)); [|done].
      destruct (seq_id b !! Z.to_nat (n_tokens b)) as [row|] eqn:Hrow;
        [|done].
      apply lookup_lt_Some in Hrow. intros; simplify_eq. simpl. lia. }
    destruct (IH (i + 1) b1 b' Hwf1) as [Hc Hle]; [lia|done|].
    simpl. lia.
Qed.

(** With an entry to submit, on a batch filled within its capacity,
    the store of line 228 stays inside the [logits] array. *)
Lemma prompt_store_in_bounds (cap : nat) (tokens : list llama_token)
    (b b1 : llama_batch) :
  batch_wf cap b -> 0 <= n_tokens b <= Z.of_nat cap ->
  0 < n_tokens b + Z.of_nat (length tokens) ->
  prompt_fill 0 tokens b = Some b1 ->
  0 < n_tokens b1 /\
  exists b2, store_logits b1 (n_tokens b1 - 1) true = Some b2.
Proof.
  intros Hwf Hn Hne Hfill.
  destruct (prompt_fill_count cap tokens 0 b b1 Hwf Hn Hfill) as [Hc Hle].
  destruct (prompt_fill_wf cap tokens 0 b b1 Hfill Hwf)
    as (_ & _ & _ & _ & Hl).
  split; [lia|]. unfold store_logits.
  rewrite decide_True by lia. eauto.
Qed.

Lemma nativeGenerate_pending (cap : nat) contextPtr prompt maxTokens
    temperature grammar callback (s : state W) text s' tr :
  contextPtr <> 0 -> g_model s <> 0 ->
  batch_wf cap (g_batch s) ->
  0 <= n_tokens (g_batch s) <= Z.of_nat cap ->
  0 < n_tokens (g_batch s)
      + Z.of_nat (length (common_tokenize (g_model s) prompt true)) ->
  nativeGenerate contextPtr prompt maxTokens temperature grammar callback s
    = (Returned text, s', tr) ->
  0 < n_tokens (g_batch s') /\ g_sampler s' = g_sampler s.
Proof.
  intros Hctx Hmodel Hwf Hn0 Hne. unfold nativeGenerate, nativeGenerate_fuel.
  rewrite decide_False by (intros [?|?]; done).
  destruct (prompt_fill 0 _ (g_batch s)) as [b1|] eqn:Hfill; [|done].
  destruct (prompt_store_in_bounds cap _ _ _ Hwf Hn0 Hne Hfill)
    as (Hi & b2 & Hstore).
  rewrite Hstore.
  destruct (store_logits_flag _ _ _ Hstore) as (_ & Hn & _).
  destruct (llama_decode contextPtr b2 _) as [rc w2].
  destruct (decide (rc <> 0)).
  { intros; simplify_eq. simpl. split; [lia|done]. }
  destruct (generate_loop _ _ _ _ _ _ _) as [ex l] eqn:Hloop.
  destruct ex; [|done..]. intros; simplify_eq. simpl. split; [|done].
  eapply generate_loop_pending; [|exact Hloop]. simpl. lia.
Qed.

(** The batch is released when it holds entries, and only then. *)
Lemma nativeFreeContext_batch (contextPtr : ptr) (s : state W) :
  g_batch (nativeFreeContext contextPtr s).1 =
    if decide (0 < n_tokens (g_batch s)) then batch_zero else g_batch s.
Proof.
  unfold nativeFreeContext.
  destruct (decide (contextPtr <> 0)), (decide (g_sampler s <> 0)),
           (decide (0 < n_tokens (g_batch s))); reflexivity.
Qed.

Lemma prompt_entries_flag (tokens : list llama_token) :
  alter emit_logits (length tokens - 1)%nat
    (imap (fun j t => mk_entry t (Z.of_nat j) [0] false) tokens)
  = imap (fun j t => mk_entry t (Z.of_nat j) [0]
                              (bool_decide (S j = length tokens))) tokens.
Proof.
  apply list_eq. intros i. rewrite list_lookup_imap.
  destruct (decide (i = length tokens - 1)%nat) as [->|Hne].
  - rewrite list_lookup_alter_eq, list_lookup_imap.
    destruct (tokens !! _) eqn:E; simpl; [|done].
    apply lookup_lt_Some in E. by rewrite bool_decide_true by lia.
  - rewrite list_lookup_alter_ne by done. rewrite list_lookup_imap.
    destruct (tokens !! i) eqn:E; simpl; [|done].
    apply lookup_lt_Some in E. by rewrite bool_decide_false by lia.
Qed.

Lemma nativeInitContext_cases modelPtr nCtx nThreads temperature
    (s : state W) :
  let r := nativeInitContext modelPtr nCtx nThreads temperature s in
  g_model r.2 = g_model s /\ g_grammar r.2 = g_grammar s /\
  ((r.1 <> 0 /\ modelPtr <> 0 /\ g_context r.2 = r.1 /\
    g_sampler r.2 <> 0 /\
    g_batch r.2 = llama_batch_init DEFAULT_N_BATCH 0 1)
   \/ (r.1 = 0 /\ g_context r.2 = g_context s /\
       g_batch r.2 = g_batch s /\
       (g_sampler r.2 = g_sampler s \/ g_sampler r.2 = 0))).
Proof.
  unfold nativeInitContext.
  destruct (decide (modelPtr = 0)); [simpl; split_and!; eauto 10|].
  destruct (llama_init_from_model _ _ _) as [context w1].
  destruct (decide (context = 0)); [simpl; split_and!; eauto 10|].
  destruct (common_sampler_init _ _ _) as [smpl w2].
  destruct (decide (smpl = 0)); simpl; split_and!; eauto 10.
Qed.

Lemma llama_batch_init_wf (n : nat) (n_seq_max : Z) :
  batch_wf n (llama_batch_init (Z.of_nat n) 0 n_seq_max) /\
  n_tokens (llama_batch_init (Z.of_nat n) 0 n_seq_max) = 0 /\
  batch_entries (llama_batch_init (Z.of_nat n) 0 n_seq_max) = [].
Proof.
  unfold batch_wf, llama_batch_init. simpl.
  by rewrite !length_replicate, Nat2Z.id.
Qed.

Lemma fresh_session_prompt_batch modelPtr nCtx nThreads temperature prompt
    maxTokens temperature' grammar callback (s : state W) :
  let r := nativeInitContext modelPtr nCtx nThreads temperature s in
  let tokens := common_tokenize (g_model s) prompt true in
  r.1 <> 0 -> g_model s <> 0 ->
  (0 < length tokens <= 512)%nat ->
  head (decoded (nativeGenerate r.1 prompt maxTokens temperature' grammar
                                callback r.2).2)
  = Some (imap (fun j t => mk_entry t (Z.of_nat j) [0]
                             (bool_decide (S j = length tokens))) tokens).
Proof.
  intros r tokens Hr Hmodel Hlen.
  destruct (nativeInitContext_cases modelPtr nCtx nThreads temperature s)
    as (Hm & _ & [(_ & _ & _ & _ & Hb)|(Hz & _)]); [|done].
  fold r in Hm, Hb.
  destruct (llama_batch_init_wf 512 1) as (Hwf & Hn & He).
  change (Z.of_nat 512) with DEFAULT_N_BATCH in Hwf, Hn, He.
  rewrite <- Hb in Hwf, Hn, He.
  pose proof (nativeGenerate_prompt_batch 512 r.1 prompt maxTokens
                temperature' grammar callback r.2) as Hp.
  simpl in Hp. rewrite Hm, He, Hn in Hp. fold tokens in Hp.
  rewrite Hp; [|done|done|done|lia|simpl; lia|simpl; lia].
  change (length (@nil entry) + length tokens - 1)%nat
    with (length tokens - 1)%nat.
  change ([] ++ ?l) with l. by rewrite prompt_entries_flag.
Qed.

(** ** Sessions *)

(** X1: what [nativeInitContext] leaves behind.  The model handle and
    the grammar are never touched.  When the call returns a handle, the
    handle is the new context, a sampler exists, and the batch is
    empty with room for 512 entries; when it returns 0, the context
    and the batch of an earlier session are still in place. *)
Theorem nativeInitContext_starts_session modelPtr nCtx nThreads temperature
    (s : state W) :
  let r := nativeInitContext modelPtr nCtx nThreads temperature s in
  g_model r.2 = g_model s /\ g_grammar r.2 = g_grammar s /\
  ((r.1 <> 0 /\ modelPtr <> 0 /\ g_context r.2 = r.1 /\
    g_sampler r.2 <> 0 /\
    batch_wf 512 (g_batch r.2) /\ batch_entries (g_batch r.2) = [])
   \/ (r.1 = 0 /\ g_context r.2 = g_context s /\
       g_batch r.2 = g_batch s)).
Proof.
  intros r.
  destruct (nativeInitContext_cases modelPtr nCtx nThreads temperature s)
    as (Hm & Hg & [(Hr & Hp & Hc & Hs & Hb)|(Hz & Hc & Hb & _)]);
    fold r in Hm, Hg; split_and!; try done.
  - left. fold r in Hr, Hc, Hs, Hb. rewrite Hb.
    destruct (llama_batch_init_wf 512 1) as (Hwf & _ & He).
    by split_and!.
  - right. by split_and!.
Qed.

(** X2: the first request of a session.  On a session that
    [nativeInitContext] has just started, a prompt of 1 to 512 tokens
    is submitted as exactly its tokens, at positions 0, 1, ..., in
    sequence 0, with the logits requested for the last token only. *)
Theorem first_prompt_batch_is_the_prompt modelPtr nCtx nThreads temperature
    prompt maxTokens temperature' grammar callback (s : state W) :
  let r := nativeInitContext modelPtr nCtx nThreads temperature s in
  let tokens := common_tokenize (g_model s) prompt true in
  r.1 <> 0 -> g_model s <> 0 ->
  (0 < length tokens <= 512)%nat ->
  head (decoded (nativeGenerate r.1 prompt maxTokens temperature' grammar
                                callback r.2).2)
  = Some (imap (fun j t => mk_entry t (Z.of_nat j) [0]
                             (bool_decide (S j = length tokens))) tokens).
Proof. apply fresh_session_prompt_batch. Qed.

(** X3: a failed evaluation of the prompt.  When the first evaluation
    of a call fails, the call does nothing more: it samples no token,
    calls nothing back and returns the empty string.  The prompt stays
    in the batch. *)
Theorem failed_prompt_evaluation_returns_empty contextPtr prompt maxTokens
    temperature grammar callback (s : state W) o s' c b rc rest :
  nativeGenerate contextPtr prompt maxTokens temperature grammar callback s
    = (o, s', EvDecode c b rc :: rest) ->
  rc <> 0 ->
  rest = [] /\ o = Returned [] /\ c = contextPtr /\ g_batch s' = b.
Proof.
  unfold nativeGenerate, nativeGenerate_fuel. intros Hrun Hrc.
  destruct (decide (contextPtr = 0 \/ g_model s = 0)); [done|].
  destruct (prompt_fill 0 _ (g_batch s)) as [b1|]; [|done].
  destruct (store_logits b1 (n_tokens b1 - 1) true) as [b2|]; [|done].
  destruct (llama_decode contextPtr b2 _) as [rc2 w2].
  destruct (decide (rc2 <> 0)); [by simplify_eq|].
  destruct (generate_loop _ _ _ _ _ _ _) as [ex l] eqn:Hloop.
  destruct (generate_loop_trace _ _ _ _ _ _ _ _ _ Hloop)
    as (new & Htr & _ & _).
  assert (Heq : l_trace l = EvDecode c b rc :: rest)
    by (destruct ex; by simplify_eq).
  rewrite Htr in Heq. simpl in Heq. injection Heq as _ _ Heq _. lia.
Qed.

(** X4: the evaluations of a call.  Every [llama_decode] of a call is
    made on the context handle that was passed; all but possibly the
    last one succeeded, and a failed one is the last; no token is
    sampled without a successful evaluation before it, and there is at
    most one evaluation more than tokens sampled, so at most
    [1 + maxTokens] of them. *)
Theorem nativeGenerate_evaluations contextPtr prompt maxTokens temperature
    grammar callback (s : state W) :
  let tr := (nativeGenerate contextPtr prompt maxTokens temperature grammar
                            callback s).2 in
  decodes_on contextPtr tr /\
  exists k last,
    decode_codes tr = replicate k 0 ++ last /\
    (last = [] \/ exists rc, rc <> 0 /\ last = [rc]) /\
    (length (sampled tr) <= k)%nat /\
    (k + length last <= 1 + length (sampled tr))%nat /\
    (k + length last <= 1 + Z.to_nat maxTokens)%nat.
Proof.
  intros tr. unfold tr. clear tr.
  destruct (nativeGenerate _ _ _ _ _ _ _) as [[o s'] tr] eqn:Hrun. simpl.
  destruct (nativeGenerate_trace _ _ _ _ _ _ _ _ _ _ Hrun)
    as [[-> _]|[(b & rc & Hrc & -> & _)|(b & ex & new & -> & Hloop & _)]].
  - split; [constructor|]. exists 0%nat, []. simpl.
    split_and!; first [done | by left | lia].
  - split; [by repeat constructor|]. exists 0%nat, [rc]. simpl.
    split_and!; try lia; try done. right. by exists rc.
  - split.
    { constructor; [done|]. by eapply loop_trace_contexts. }
    destruct (loop_trace_codes _ _ _ _ _ _ _ Hloop)
      as (k & last & Hc & Hlast & Hk & Hs).
    pose proof (loop_trace_rounds _ _ _ _ _ _ _ Hloop) as Hr.
    rewrite Z.sub_0_r in Hr.
    exists (S k), last. simpl. rewrite Hc.
    split_and!; first [done | lia].
Qed.

(** The loop stores through no computed index: the one way it stops
    short is the full batch. *)
Lemma loop_trace_crash model context maxTokens onTok n f tr :
  loop_trace model context maxTokens onTok n (ExitCrash f) tr ->
  f = BatchOverflow.
Proof.
  remember (ExitCrash f) as ex eqn:Hex.
  induction 1 as [n Hn|n Hn|n idx tok Hn He|n idx tok b rc Hn He Hrc
                 |n idx tok Hn He|n idx tok b ex rest Hn He Hrest IH];
    try discriminate; [by injection Hex|by apply IH].
Qed.

(** X5: the sampler reads logits that were asked for.  Take a batch
    whose arrays have one capacity and whose count lies within it,
    and a call that has an entry to submit (the batch holds one, or
    the prompt has a token).  Then the call never stores outside the
    [logits] array, and every sampling call follows an evaluation,
    reads at the index of the last entry of the batch evaluated last,
    and that entry had its logits requested. *)
Theorem sampler_reads_requested_logits (cap : nat) contextPtr prompt
    maxTokens temperature grammar callback (s : state W) :
  let tokens := common_tokenize (g_model s) prompt true in
  let r := nativeGenerate contextPtr prompt maxTokens temperature grammar
                          callback s in
  batch_wf cap (g_batch s) ->
  0 <= n_tokens (g_batch s) <= Z.of_nat cap ->
  0 < n_tokens (g_batch s) + Z.of_nat (length tokens) ->
  r.1.1 <> Crashed OutOfBounds /\
  Forall reads_last_logits (sample_reads batch_zero r.2).
Proof.
  intros tokens r Hwf Hn0 Hne.
  unfold r, nativeGenerate, nativeGenerate_fuel. clear r.
  destruct (decide (contextPtr = 0 \/ g_model s = 0));
    [split; [done|constructor]|].
  fold tokens.
  destruct (prompt_fill 0 tokens (g_batch s)) as [b1|] eqn:Hfill;
    [|split; [done|constructor]].
  destruct (prompt_store_in_bounds cap _ _ _ Hwf Hn0 Hne Hfill)
    as (_ & b2 & Hstore).
  rewrite Hstore.
  destruct (store_logits_flag _ _ _ Hstore) as (Hi & Hn & Hflag).
  destruct (llama_decode contextPtr b2 _) as [rc w2].
  destruct (decide (rc <> 0)); [split; [done|constructor]|].
  destruct (generate_loop _ _ _ _ _ _ _) as [ex l] eqn:Hloop.
  split.
  { destruct (generate_loop_trace _ _ _ _ _ _ _ _ _ Hloop)
      as (new & _ & _ & Hshape).
    destruct ex as [|f|]; simpl; [done| |done].
    apply loop_trace_crash in Hshape as ->. done. }
  assert (Hwf2 : batch_wf cap b2).
  { eapply store_logits_wf; [exact Hstore|].
    eapply prompt_fill_wf; [exact Hfill|done]. }
  assert (Hgood : reads_last_logits (b2, n_tokens b2 - 1)).
  { unfold reads_last_logits. simpl. rewrite Hn. by split_and!. }
  destruct (generate_loop_reads _ _ _ _ _ cap _
              (mk_loop [] 0 b2 w2 [EvDecode contextPtr b2 rc]) _ _
              Hwf2 Hgood Hloop) as (new & Htr & Hall).
  simpl in Htr, Hall.
  by destruct ex; simpl; rewrite Htr.
Qed.

(** X6: the size of what a call hands back.  No fragment given to the
    callback holds a NUL byte or more than 255 bytes, and the text
    returned holds no NUL byte and at most [255 * maxTokens] bytes. *)
Theorem nativeGenerate_text_bounds contextPtr prompt maxTokens temperature
    grammar callback (s : state W) :
  let r := nativeGenerate contextPtr prompt maxTokens temperature grammar
                          callback s in
  Forall (fun f => (x00 ∉ f) /\ (length f <= 255)%nat) (delivered r.2) /\
  forall text, r.1.1 = Returned text ->
    (x00 ∉ text) /\ (length text <= 255 * Z.to_nat maxTokens)%nat.
Proof.
  intros r. unfold r. clear r.
  destruct (nativeGenerate _ _ _ _ _ _ _) as [[o s'] tr] eqn:Hrun. simpl.
  destruct (nativeGenerate_trace _ _ _ _ _ _ _ _ _ _ Hrun)
    as [[-> Ho]|[(b & rc & Hrc & -> & ->)
                |(b & ex & new & -> & Hloop & _ & ->)]].
  - split; [constructor|]. intros text ->.
    destruct Ho as [Ho|[f Ho]]; simplify_eq.
    split; [apply not_elem_of_nil|simpl; lia].
  - split; [constructor|]. intros text Ht. simplify_eq.
    split; [apply not_elem_of_nil|simpl; lia].
  - change (delivered (EvDecode contextPtr b 0 :: new))
      with (delivered new).
    split; [by eapply loop_trace_fragments|].
    intros text Ht. destruct ex; simplify_eq.
    split; [apply c_str_nul_free|].
    pose proof (loop_trace_rounds _ _ _ _ _ _ _ Hloop) as Hr.
    rewrite Z.sub_0_r in Hr.
    pose proof (accumulated_length (g_model s) new).
    pose proof (c_str_length (accumulated (g_model s) new)). lia.
Qed.

(** X7: what a call leaves alone.  [nativeGenerate] changes none of
    the handles the bridge keeps (model, context, sampler) nor the
    grammar, whatever handle it is called with, and the arrays of the
    batch keep their capacity. *)
Theorem nativeGenerate_keeps_session (cap : nat) contextPtr prompt maxTokens
    temperature grammar callback (s : state W) :
  let s' := (nativeGenerate contextPtr prompt maxTokens temperature grammar
                            callback s).1.2 in
  g_model s' = g_model s /\ g_context s' = g_context s /\
  g_sampler s' = g_sampler s /\ g_grammar s' = g_grammar s /\
  (batch_wf cap (g_batch s) -> batch_wf cap (g_batch s')).
Proof.
  unfold nativeGenerate, nativeGenerate_fuel.
  destruct (decide (contextPtr = 0 \/ g_model s = 0)); [done|].
  destruct (prompt_fill 0 _ (g_batch s)) as [b1|] eqn:Hfill; [|done].
  destruct (store_logits b1 (n_tokens b1 - 1) true) as [b2|] eqn:Hstore.
  2:{ simpl. split_and!; try done. intros Hwf.
      by eapply prompt_fill_wf. }
  assert (Hwf2 : batch_wf cap (g_batch s) -> batch_wf cap b2).
  { intros Hwf. eapply store_logits_wf; [exact Hstore|].
    eapply prompt_fill_wf; [exact Hfill|done]. }
  destruct (llama_decode contextPtr b2 _) as [rc w2].
  destruct (decide (rc <> 0)); [by simpl|].
  destruct (generate_loop _ _ _ _ _ _ _) as [ex l] eqn:Hloop.
  assert (batch_wf cap (g_batch s) -> batch_wf cap (l_batch l)).
  { intros Hwf. eapply generate_loop_wf; [|exact Hloop]. simpl. auto. }
  by destruct ex; simpl.
Qed.

(** X8: a request after the session was closed.  Once
    [nativeFreeContext] has released a batch that held entries, a
    later [nativeGenerate] with a non-null handle and a loaded model
    does not return: it stops at the batch, before any call of the
    engine's evaluation. *)
Theorem generate_after_release_crashes c contextPtr prompt maxTokens
    temperature grammar callback (s : state W) :
  let r := nativeGenerate contextPtr prompt maxTokens temperature grammar
                          callback (nativeFreeContext c s).1 in
  contextPtr <> 0 -> g_model s <> 0 -> 0 < n_tokens (g_batch s) ->
  (exists f, r.1.1 = Crashed f) /\ r.2 = [].
Proof.
  intros r Hctx Hmodel Hpos.
  destruct (nativeGenerate_no_batch contextPtr prompt maxTokens temperature
              grammar callback (nativeFreeContext c s).1)
    as (f & Ho & Htr); [done| | |by eauto].
  - by destruct (nativeFreeContext_globals c s) as (-> & _).
  - by rewrite nativeFreeContext_batch, decide_True.
Qed.

(** X9: closing a session that has served a request.  Take a batch
    whose arrays have one capacity and whose count lies within it,
    and a [nativeGenerate] that had an entry to submit (the batch held
    one, or the prompt has a token) and returned.  Then the batch
    holds an entry at the return, and [nativeFreeContext] releases the
    context, then the sampler, then the batch, and leaves no session
    behind.  (A call with nothing to submit is another matter: see
    C3.) *)
Theorem endSession_after_generate_releases_all (cap : nat) contextPtr prompt
    maxTokens temperature grammar callback (s : state W) text s' tr :
  contextPtr <> 0 -> g_model s <> 0 ->
  batch_wf cap (g_batch s) ->
  0 <= n_tokens (g_batch s) <= Z.of_nat cap ->
  0 < n_tokens (g_batch s)
      + Z.of_nat (length (common_tokenize (g_model s) prompt true)) ->
  nativeGenerate contextPtr prompt maxTokens temperature grammar callback s
    = (Returned text, s', tr) ->
  0 < n_tokens (g_batch s') /\
  (nativeFreeContext contextPtr s').2 =
    EvContextFree contextPtr ::
    (if decide (g_sampler s <> 0) then [EvSamplerFree (g_sampler s)] else [])
    ++ [EvBatchFree] /\
  g_batch (nativeFreeContext contextPtr s').1 = batch_zero /\
  g_context (nativeFreeContext contextPtr s').1 = 0 /\
  g_sampler (nativeFreeContext contextPtr s').1 = 0.
Proof.
  intros Hctx Hmodel Hwf Hn0 Hne Hrun.
  destruct (nativeGenerate_pending cap _ _ _ _ _ _ _ _ _ _ Hctx Hmodel
              Hwf Hn0 Hne Hrun) as (Hpos & Hs).
  destruct (nativeFreeContext_globals contextPtr s') as (_ & Hc & Hs' & _).
  rewrite nativeFreeContext_events, Hs.
  rewrite (decide_True (P := contextPtr <> 0)) by done.
  rewrite (decide_True (P := 0 < _)) by done.
  split_and!; try done.
  by rewrite nativeFreeContext_batch, decide_True.
Qed.

(** X10: closing a session that has served no request.  Called right
    after [nativeInitContext], [nativeFreeContext] releases the context
    and the sampler and stops there: the batch, which holds no entry
    yet, is not released and stays in place. *)
Theorem endSession_before_generate_keeps_batch modelPtr nCtx nThreads
    temperature (s : state W) :
  let r := nativeInitContext modelPtr nCtx nThreads temperature s in
  r.1 <> 0 ->
  (nativeFreeContext r.1 r.2).2
    = [EvContextFree r.1; EvSamplerFree (g_sampler r.2)] /\
  g_batch (nativeFreeContext r.1 r.2).1
    = llama_batch_init DEFAULT_N_BATCH 0 1 /\
  g_context (nativeFreeContext r.1 r.2).1 = 0.
Proof.
  intros r Hr.
  destruct (nativeInitContext_cases modelPtr nCtx nThreads temperature s)
    as (_ & _ & [(_ & _ & _ & Hs & Hb)|(Hz & _)]); [|done].
  fold r in Hs, Hb.
  destruct (nativeFreeContext_globals r.1 r.2) as (_ & Hc & _).
  rewrite nativeFreeContext_events.
  rewrite (decide_True (P := r.1 <> 0)) by done.
  rewrite (decide_True (P := g_sampler r.2 <> 0)) by done.
  rewrite Hb. rewrite (decide_False (P := 0 < _)) by (simpl; lia).
  split_and!; [done| |done].
  rewrite nativeFreeContext_batch, Hb.
  by rewrite decide_False by (simpl; lia).
Qed.

End GenerateFacts.

(** ** Model load, unload and token count *)

Lemma decimal_nul_free (n : N) : x00 ∉ decimal n.
Proof.
  intros Hin. pose proof (decimal_digits n) as Hd.
  rewrite list.Forall_forall in Hd.
  by apply (is_digit_not_nul x00 (Hd _ Hin)).
Qed.

Lemma decimal_nonempty (n : N) : decimal n <> [].
Proof.
  unfold decimal. simpl. intros Hnil.
  apply (f_equal (@length byte)) in Hnil.
  rewrite length_app in Hnil. simpl in Hnil. lia.
Qed.

(** Twenty digits and the NUL fit the 64 bytes of [result]: nothing
    of a [size_t] count is cut off. *)
Lemma snprintf_zu_c_str (n : N) :
  (n < 2 ^ 64)%N -> c_str (snprintf_zu 64 n) = decimal n.
Proof.
  intros Hn. unfold snprintf_zu.
  pose proof (decimal_length_size_t n Hn).
  rewrite take_ge by lia.
  change [x00] with (replicate 1 x00). rewrite c_str_app_zeros.
  apply c_str_no_nul, decimal_nul_free.
Qed.

Section LifecycleFacts.
Context {W : Type} `{InferenceEngine W} `{ModelStore W}.

Lemma nativeTokenize_decimal (modelPtr : ptr) (text : list byte) :
  modelPtr <> 0 ->
  (N.of_nat (length (common_tokenize modelPtr text true)) < 2 ^ 64)%N ->
  nativeTokenize modelPtr text
  = decimal (N.of_nat (length (common_tokenize modelPtr text true))).
Proof.
  intros Hm Hn. unfold nativeTokenize.
  rewrite decide_False by done. by apply snprintf_zu_c_str.
Qed.

(** X11: from load to the first request.  The handle
    [nativeLoadModel] returns is the one a session started on it
    tokenizes with: the first request of that session submits the
    prompt as the loaded model tokenizes it, positions 0, 1, ..., the
    logits requested for the last token. *)
Theorem loaded_model_serves_first_request modelPath nCtx nGpuLayers nCtx'
    nThreads temperature prompt maxTokens temperature' grammar callback
    (s : state W) :
  let l := nativeLoadModel modelPath nCtx nGpuLayers s in
  let r := nativeInitContext l.1.1 nCtx' nThreads temperature l.1.2 in
  let tokens := common_tokenize l.1.1 prompt true in
  l.1.1 <> 0 -> r.1 <> 0 -> (0 < length tokens <= 512)%nat ->
  l.2 = [EvModelLoad modelPath nGpuLayers l.1.1] /\
  head (decoded (nativeGenerate r.1 prompt maxTokens temperature' grammar
                                callback r.2).2)
  = Some (imap (fun j t => mk_entry t (Z.of_nat j) [0]
                             (bool_decide (S j = length tokens))) tokens).
Proof.
  intros l r tokens Hl Hr Hlen.
  assert (Hm : g_model l.1.2 = l.1.1 /\
               l.2 = [EvModelLoad modelPath nGpuLayers l.1.1]).
  { revert Hl. unfold l, nativeLoadModel.
    destruct (llama_load_model_from_file _ _ _) as [model w1].
    by destruct (decide (model = 0)). }
  destruct Hm as [Hm Hcalls]. split; [done|].
  pose proof (fresh_session_prompt_batch l.1.1 nCtx' nThreads temperature
                prompt maxTokens temperature' grammar callback l.1.2) as Hp.
  simpl in Hp. rewrite Hm in Hp. apply Hp; by try rewrite Hm.
Qed.

(** X12: a failed load.  When [nativeLoadModel] returns 0, the model
    loaded earlier and its session stay as they were: the bridge keeps
    the earlier handles, and has made the one call to the engine's
    loader with the path and the number of GPU layers given. *)
Theorem failed_load_keeps_earlier_model modelPath nCtx nGpuLayers
    (s : state W) :
  let l := nativeLoadModel modelPath nCtx nGpuLayers s in
  l.1.1 = 0 ->
  g_model l.1.2 = g_model s /\ g_context l.1.2 = g_context s /\
  g_batch l.1.2 = g_batch s /\ g_sampler l.1.2 = g_sampler s /\
  l.2 = [EvModelLoad modelPath nGpuLayers 0].
Proof.
  unfold nativeLoadModel.
  destruct (llama_load_model_from_file _ _ _) as [model w1].
  destruct (decide (model = 0)) as [->|]; simpl; [done|].
  intros Hz. by subst.
Qed.

(** X13: a request after the model was unloaded.  Whatever handle
    [nativeFreeModel] is called with, also 0 or another one than the
    loaded model's, the bridge forgets its model: the session's
    context, sampler and batch stay in place, and a later
    [nativeGenerate] returns the empty string without calling the
    engine or changing anything. *)
Theorem generate_after_unload_is_refused modelPtr contextPtr prompt
    maxTokens temperature grammar callback (s : state W) :
  let u := nativeFreeModel modelPtr s in
  u.2 = (if decide (modelPtr <> 0) then [EvModelFree modelPtr] else []) /\
  g_context u.1 = g_context s /\ g_sampler u.1 = g_sampler s /\
  g_batch u.1 = g_batch s /\
  nativeGenerate contextPtr prompt maxTokens temperature grammar callback
                 u.1
  = (Returned [], u.1, []).
Proof.
  unfold nativeFreeModel.
  destruct (decide (modelPtr <> 0)); simpl; split_and!; try done;
    unfold nativeGenerate, nativeGenerate_fuel; simpl;
    by rewrite decide_True by (by right).
Qed.

(** X14: the token count. For a non-null model handle
    [nativeTokenize] returns the number of tokens of the text, written
    in decimal: digits only, at least one, and read back as a number
    it is the count.  (The count fits a [size_t].) *)
Theorem nativeTokenize_reports_token_count (modelPtr : ptr)
    (text : list byte) :
  let count := N.of_nat (length (common_tokenize modelPtr text true)) in
  modelPtr <> 0 -> (count < 2 ^ 64)%N ->
  Forall is_digit (nativeTokenize modelPtr text) /\
  nativeTokenize modelPtr text <> [] /\
  decimal_value (nativeTokenize modelPtr text) = count.
Proof.
  intros count Hm Hn. rewrite nativeTokenize_decimal by done.
  fold count. split_and!.
  - apply decimal_digits.
  - apply decimal_nonempty.
  - apply decimal_round_trip.
Qed.

(** X15: the token count and the request.  The count
    [nativeTokenize] reports for a prompt is the number of entries the
    first request of a session submits for it. *)
Theorem token_count_is_prompt_batch_size modelPtr nCtx nThreads temperature
    prompt maxTokens temperature' grammar callback (s : state W) :
  let r := nativeInitContext modelPtr nCtx nThreads temperature s in
  let tokens := common_tokenize (g_model s) prompt true in
  r.1 <> 0 -> g_model s <> 0 ->
  (0 < length tokens <= 512)%nat ->
  exists es,
    head (decoded (nativeGenerate r.1 prompt maxTokens temperature' grammar
                                  callback r.2).2) = Some es /\
    decimal_value (nativeTokenize (g_model s) prompt)
    = N.of_nat (length es).
Proof.
  intros r tokens Hr Hmodel Hlen. eexists. split.
  { by apply fresh_session_prompt_batch. }
  rewrite length_imap, nativeTokenize_decimal; [|done|].
  - apply decimal_round_trip.
  - fold tokens.
    assert (N.of_nat 512 < 2 ^ 64)%N by (vm_compute; reflexivity). lia.
Qed.

End LifecycleFacts.

(** ** More runs on the scripted engine *)

Section MoreRuns.
Import Scripted.

Let temperature := DEFAULT_TEMPERATURE.

(** X2 at work: a session is started and asked for one token after
    the prompt "hi"; the first evaluation gets "h" at position 0 and
    "i" at position 1, the logits requested for "i". *)
Lemma first_prompt_batch_witness :
  let s := loaded (mk_script [65] []) in
  let r := nativeInitContext 1 128 4 temperature s in
  r.1 = 100 /\
  common_tokenize (g_model s) hi true = [104; 105] /\
  head (decoded (nativeGenerate r.1 hi 1 temperature None sink r.2).2)
  = Some [mk_entry 104 0 [0] false; mk_entry 105 1 [0] true].
Proof.
  intros s r. split; [reflexivity|]. split; [reflexivity|].
  assert (Hr : r.1 <> 0) by (vm_compute; discriminate).
  assert (Hm : g_model s <> 0) by (vm_compute; discriminate).
  assert (Hlen : (0 < length (common_tokenize (g_model s) hi true) <= 512)%nat)
    by (vm_compute; lia).
  etrans; [exact (first_prompt_batch_is_the_prompt 1 128 4 temperature hi 1
                    temperature None sink s Hr Hm Hlen)|].
  reflexivity.
Defined.

(** X3 at work: the evaluation of the prompt "hi" fails with code 7;
    nothing follows it, the call returns the empty string, and the
    batch still holds the prompt. *)
Lemma failed_prompt_evaluation_witness :
  let r := nativeGenerate 100 hi 5 temperature None sink
                          (session (mk_script [65] [7])) in
  decode_codes r.2 = [7] /\
  drop 1 r.2 = [] /\
  r.1.1 = Returned [] /\
  g_batch r.1.2 = last_batch r.2 /\
  batch_entries (g_batch r.1.2)
  = [mk_entry 104 0 [0] false; mk_entry 105 1 [0] true].
Proof.
  intros r.
  assert (Hrun : nativeGenerate 100 hi 5 temperature None sink
                   (session (mk_script [65] [7]))
                 = (r.1.1, r.1.2,
                    EvDecode 100 (last_batch r.2) 7 :: drop 1 r.2))
    by (vm_compute; reflexivity).
  assert (Hrc : 7 <> 0) by lia.
  destruct (failed_prompt_evaluation_returns_empty
              _ _ _ _ _ _ _ _ _ _ _ _ _ Hrun Hrc)
    as (Hrest & Ho & _ & Hb).
  split; [vm_compute; reflexivity|].
  split; [exact Hrest|]. split; [exact Ho|]. split; [exact Hb|].
  vm_compute; reflexivity.
Defined.

(** X5 at work: after the prompt "hi" the sampler reads index 1, the
    flagged "i"; after the one-token batch of "A" it reads index 0. *)
Lemma sampler_reads_witness :
  let s := session (mk_script [65; 66] []) in
  let r := nativeGenerate 100 hi 2 temperature None sink s in
  batch_wf 512 (g_batch s) /\
  n_tokens (g_batch s) = 0 /\
  length (common_tokenize (g_model s) hi true) = 2%nat /\
  (snd <$> sample_reads batch_zero r.2) = [1; 0] /\
  (r.1.1 <> Crashed OutOfBounds /\
   Forall reads_last_logits (sample_reads batch_zero r.2)).
Proof.
  intros s r.
  assert (Hwf : batch_wf 512 (g_batch s)) by (vm_compute; repeat split).
  assert (Hn : n_tokens (g_batch s) = 0) by (vm_compute; reflexivity).
  assert (Hlen : length (common_tokenize (g_model s) hi true) = 2%nat)
    by (vm_compute; reflexivity).
  split; [exact Hwf|]. split; [exact Hn|]. split; [exact Hlen|].
  split; [vm_compute; reflexivity|].
  assert (Hn0 : 0 <= n_tokens (g_batch s) <= Z.of_nat 512)
    by (rewrite Hn; lia).
  assert (Hne : 0 < n_tokens (g_batch s)
                    + Z.of_nat (length (common_tokenize (g_model s) hi true)))
    by (rewrite Hn, Hlen; lia).
  exact (sampler_reads_requested_logits 512 100 hi 2 temperature None sink
           s Hwf Hn0 Hne).
Defined.

(** X8 at work: a session serves a request and is closed; the next
    request with the old handle stops at the released batch. *)
Lemma generate_after_release_witness :
  let s := used_session (mk_script [65; 66] []) in
  let r := nativeGenerate 100 yo 1 temperature None sink
                          (nativeFreeContext 100 s).1 in
  n_tokens (g_batch s) = 1 /\
  r.1.1 = Crashed BatchOverflow /\
  ((exists f, r.1.1 = Crashed f) /\ r.2 = []).
Proof.
  intros s r. split; [vm_compute; reflexivity|].
  split; [vm_compute; reflexivity|].
  assert (Hctx : 100 <> 0) by lia.
  assert (Hm : g_model s <> 0) by (vm_compute; discriminate).
  assert (Hpos : 0 < n_tokens (g_batch s)) by (vm_compute; reflexivity).
  exact (generate_after_release_crashes 100 100 yo 1 temperature None sink
           s Hctx Hm Hpos).
Defined.

(** X9 at work: a session serves the prompt "hi" and is closed:
    context 100, sampler 200 and the batch are released. *)
Lemma endSession_after_generate_witness :
  let s := session (mk_script [65] []) in
  let r := nativeGenerate 100 hi 1 temperature None sink s in
  batch_wf 512 (g_batch s) /\
  n_tokens (g_batch s) = 0 /\
  length (common_tokenize (g_model s) hi true) = 2%nat /\
  r.1.1 = Returned [x41] /\
  0 < n_tokens (g_batch r.1.2) /\
  (nativeFreeContext 100 r.1.2).2
    = [EvContextFree 100; EvSamplerFree 200; EvBatchFree] /\
  g_batch (nativeFreeContext 100 r.1.2).1 = batch_zero.
Proof.
  intros s r.
  assert (Hrun : nativeGenerate 100 hi 1 temperature None sink s
                 = (Returned [x41], r.1.2, r.2))
    by (vm_compute; reflexivity).
  assert (Hctx : 100 <> 0) by lia.
  assert (Hm : g_model s <> 0) by (vm_compute; discriminate).
  assert (Hwf : batch_wf 512 (g_batch s)) by (vm_compute; repeat split).
  assert (Hn : n_tokens (g_batch s) = 0) by (vm_compute; reflexivity).
  assert (Hlen : length (common_tokenize (g_model s) hi true) = 2%nat)
    by (vm_compute; reflexivity).
  assert (Hn0 : 0 <= n_tokens (g_batch s) <= Z.of_nat 512)
    by (rewrite Hn; lia).
  assert (Hne : 0 < n_tokens (g_batch s)
                    + Z.of_nat (length (common_tokenize (g_model s) hi true)))
    by (rewrite Hn, Hlen; lia).
  destruct (endSession_after_generate_releases_all
              512 _ _ _ _ _ _ _ _ _ _ Hctx Hm Hwf Hn0 Hne Hrun)
    as (Hpos & Hev & Hb & _).
  split; [exact Hwf|]. split; [exact Hn|]. split; [exact Hlen|].
  split; [vm_compute; reflexivity|]. split; [exact Hpos|].
  split; [rewrite Hev; vm_compute; reflexivity | exact Hb].
Defined.

(** X10 at work: a session is started and closed at once: context
    100 and sampler 200 are released, the batch of 512 slots is
    not. *)
Lemma endSession_before_generate_witness :
  let r := nativeInitContext 1 128 4 temperature (loaded (mk_script [] [])) in
  r.1 = 100 /\
  (nativeFreeContext r.1 r.2).2 = [EvContextFree 100; EvSamplerFree 200] /\
  length (logits (g_batch (nativeFreeContext r.1 r.2).1)) = 512%nat.
Proof.
  intros r. split; [reflexivity|].
  assert (Hr : r.1 <> 0) by (vm_compute; discriminate).
  destruct (endSession_before_generate_keeps_batch 1 128 4 temperature
              (loaded (mk_script [] [])) Hr) as (Hev & Hb & _).
  fold r in Hev, Hb.
  split; [rewrite Hev; vm_compute; reflexivity|].
  rewrite Hb. vm_compute; reflexivity.
Defined.

(** X11 at work: the model file "m" is loaded with 0 GPU layers, a
    session is started on the handle returned, and the prompt "hi"
    goes out as "h" at 0 and "i" at 1. *)
Lemma loaded_model_serves_witness :
  let s0 := mk_state 0 0 batch_zero 0 [] (mk_script [65] []) in
  let l := nativeLoadModel [x6d] 2048 0 s0 in
  let r := nativeInitContext l.1.1 2048 4 temperature l.1.2 in
  l.1.1 = 1 /\ r.1 = 100 /\
  l.2 = [EvModelLoad [x6d] 0 1] /\
  head (decoded (nativeGenerate r.1 hi 1 temperature None sink r.2).2)
  = Some [mk_entry 104 0 [0] false; mk_entry 105 1 [0] true].
Proof.
  intros s0 l r. split; [reflexivity|]. split; [reflexivity|].
  assert (Hl : l.1.1 <> 0) by (vm_compute; discriminate).
  assert (Hr : r.1 <> 0) by (vm_compute; discriminate).
  assert (Hlen : (0 < length (common_tokenize l.1.1 hi true) <= 512)%nat)
    by (vm_compute; lia).
  destruct (loaded_model_serves_first_request [x6d] 2048 0 2048 4
              temperature hi 1 temperature None sink s0 Hl Hr Hlen)
    as (Hcalls & Hhead).
  split; [etrans; [exact Hcalls|reflexivity]|].
  etrans; [exact Hhead|reflexivity].
Defined.

(** X12 at work: with model 1 loaded and a session running, loading
    from the empty path fails; model 1 and context 100 stay. *)
Lemma failed_load_witness :
  let s := session (mk_script [] []) in
  let l := nativeLoadModel [] 2048 0 s in
  l.1.1 = 0 /\ g_model l.1.2 = 1 /\ g_context l.1.2 = 100.
Proof.
  intros s l. split; [reflexivity|].
  assert (Hl : l.1.1 = 0) by reflexivity.
  destruct (failed_load_keeps_earlier_model [] 2048 0 s Hl)
    as (Hm & Hc & _).
  fold l in Hm, Hc.
  split; [rewrite Hm|rewrite Hc]; vm_compute; reflexivity.
Defined.

(** X14 at work: "hi" has two tokens; the call returns "2". *)
Lemma nativeTokenize_witness :
  nativeTokenize 1 hi = [x32] /\
  Forall is_digit (nativeTokenize 1 hi) /\
  decimal_value (nativeTokenize 1 hi) = 2%N.
Proof.
  split; [vm_compute; reflexivity|].
  assert (Hm : 1 <> 0) by lia.
  assert (Hn : (N.of_nat (length (common_tokenize 1%Z hi true)) < 2 ^ 64)%N)
    by (vm_compute; reflexivity).
  destruct (nativeTokenize_reports_token_count 1 hi Hm Hn)
    as (Hd & _ & Hv).
  split; [exact Hd|]. rewrite Hv. reflexivity.
Defined.

(** X15 at work: the count reported for "hi" is 2, and the first
    request of a session submits 2 entries for it. *)
Lemma token_count_witness :
  let s := loaded (mk_script [65] []) in
  let r := nativeInitContext 1 128 4 temperature s in
  decimal_value (nativeTokenize (g_model s) hi) = 2%N /\
  exists es,
    head (decoded (nativeGenerate r.1 hi 1 temperature None sink r.2).2)
      = Some es /\
    decimal_value (nativeTokenize (g_model s) hi) = N.of_nat (length es).
Proof.
  intros s r. split; [vm_compute; reflexivity|].
  assert (Hr : r.1 <> 0) by (vm_compute; discriminate).
  assert (Hm : g_model s <> 0) by (vm_compute; discriminate).
  assert (Hlen : (0 < length (common_tokenize (g_model s) hi true) <= 512)%nat)
    by (vm_compute; lia).
  exact (token_count_is_prompt_batch_size 1 128 4 temperature hi 1
           temperature None sink s Hr Hm Hlen).
Defined.

End MoreRuns.
